(** * most_common_schedule_by_genre.py: a shallow embedding and its properties

    The program reads a CSV file of television programmes and computes, for
    every genre, the most common schedule value.  This file embeds the four
    functions of [most_common_schedule_by_genre.py] and the report of [_main]
    and relates them to the natural-language specification.

    Conventions of the embedding.
    - A Python [str] is a [string]; a character is an [ascii], read as the code
      point 0..255.
    - A [while i < n] loop over a string is a structural recursion over the
      unread suffix [line[i:]]; [i += 1] is one step into the tail and
      [i += 2] two.
    - A [dict] whose iteration order the code relies upon ([header_map]) is an
      insertion-ordered association list; the counting dictionaries, whose
      order is never observed, are [gmap]s.
    - A raised [ValueError] is the [Raise] outcome of the [result] type. *)

From Stdlib Require Import Ascii NArith Bool.
From Stdlib Require String.
From stdpp Require Import gmap strings sorting.

#[local] Set Warnings "-clear-no-such-hyp".

(** ** Python string primitives *)

Module Py.

Definition code (c : ascii) : N := N_of_ascii c.

(** The characters the program names. *)
Definition dquote : ascii := "034"%char.
Definition squote : ascii := "'"%char.
Definition comma : ascii := ","%char.
Definition newline : ascii := "010"%char.
Definition lbracket : ascii := "["%char.
Definition rbracket : ascii := "]"%char.

(** [str.isspace] on the code points below 256: TAB..CR, FS..US, space,
    NEL and NBSP. *)
Definition is_space (c : ascii) : bool :=
  let n := code c in
  ((9 <=? n) && (n <=? 13) || (28 <=? n) && (n <=? 32)
   || (n =? 133) || (n =? 160))%N.

Definition char_eqb (a b : ascii) : bool := Ascii.eqb a b.

(** [ch in chars] for a one-character [ch]. *)
Fixpoint char_in (c : ascii) (chars : string) : bool :=
  match chars with
  | EmptyString => false
  | String d rest => char_eqb c d || char_in c rest
  end.

Fixpoint len (s : string) : nat :=
  match s with
  | EmptyString => 0
  | String _ rest => S (len rest)
  end.

(** [bool(s)]: a string is truthy when it is not empty. *)
Definition truthy (s : string) : bool :=
  match s with EmptyString => false | String _ _ => true end.

(** [s.lstrip(chars)], [s.rstrip(chars)] and [s.strip(chars)] for a set of
    characters given as a predicate. *)
Fixpoint lstrip_by (p : ascii → bool) (s : string) : string :=
  match s with
  | EmptyString => EmptyString
  | String c rest => if p c then lstrip_by p rest else s
  end.

Fixpoint rstrip_by (p : ascii → bool) (s : string) : string :=
  match s with
  | EmptyString => EmptyString
  | String c rest =>
      match rstrip_by p rest with
      | EmptyString => if p c then EmptyString else String c EmptyString
      | r => String c r
      end
  end.

Definition strip_by (p : ascii → bool) (s : string) : string :=
  rstrip_by p (lstrip_by p s).

(** [s.strip()] *)
Definition strip (s : string) : string := strip_by is_space s.

(** [s.strip(chars)] *)
Definition strip_chars (chars : string) (s : string) : string :=
  strip_by (λ c, char_in c chars) s.

(** [s.rstrip('\n')] *)
Definition rstrip_newline (s : string) : string :=
  rstrip_by (λ c, char_eqb c newline) s.

(** [s.startswith(c)] and [s.endswith(c)] for a one-character [c]. *)
Definition startswith (c : ascii) (s : string) : bool :=
  match s with
  | EmptyString => false
  | String d _ => char_eqb d c
  end.

Fixpoint endswith (c : ascii) (s : string) : bool :=
  match s with
  | EmptyString => false
  | String d EmptyString => char_eqb d c
  | String _ rest => endswith c rest
  end.

(** [s[:-1]] and [s[1:-1]] *)
Fixpoint drop_last (s : string) : string :=
  match s with
  | EmptyString => EmptyString
  | String _ EmptyString => EmptyString
  | String c rest => String c (drop_last rest)
  end.

Definition slice_1_m1 (s : string) : string :=
  match s with
  | EmptyString => EmptyString
  | String _ rest => drop_last rest
  end.

(** [s.count(c)] for a one-character [c]. *)
Fixpoint count (c : ascii) (s : string) : nat :=
  match s with
  | EmptyString => 0
  | String d rest => (if char_eqb d c then 1 else 0) + count c rest
  end.

(** [s.lower()] on the code points below 256: A..Z and the accented
    capitals 192..222 other than the multiplication sign 215. *)
Definition lower_char (c : ascii) : ascii :=
  let n := code c in
  if ((65 <=? n) && (n <=? 90)
      || (192 <=? n) && (n <=? 222) && negb (n =? 215))%N
  then ascii_of_N (n + 32) else c.

Fixpoint lower (s : string) : string :=
  match s with
  | EmptyString => EmptyString
  | String c rest => String (lower_char c) (lower rest)
  end.

(** [sub in s] *)
Fixpoint contains (sub s : string) : bool :=
  String.prefix sub s
  || match s with
     | EmptyString => false
     | String _ rest => contains sub rest
     end.

(** [s.split(',')]: never empty, [''.split(',') == ['']]. *)
Fixpoint split_comma (s : string) : list string :=
  match s with
  | EmptyString => [EmptyString]
  | String c rest =>
      if char_eqb c comma
      then EmptyString :: split_comma rest
      else match split_comma rest with
           | piece :: pieces => String c piece :: pieces
           | [] => [String c EmptyString]
           end
  end.

(** [cur + ch], also [cur.append(ch)] followed by [''.join(cur)]. *)
Definition snoc (cur : string) (ch : ascii) : string :=
  cur +:+ String ch EmptyString.

(** The order of [str] values: code point by code point. *)
Definition ltb (a b : string) : bool := String.ltb a b.

End Py.

(** ** Record Splitter: [split_csv_line] *)

(** The [while i < n] loop of [split_csv_line]; [rest] is [line[i:]].  The
    result is the pair of [fields] and [cur] when the loop ends. *)
Fixpoint split_scan (rest : string) (in_quotes : bool) (cur : string)
    (fields : list string) {struct rest} : list string * string :=
  match rest with
  | EmptyString => (fields, cur)
  | String ch tl =>
      if in_quotes then
        if Py.char_eqb ch Py.dquote then
          match tl with
          | String next tl' =>
              if Py.char_eqb next Py.dquote
              then split_scan tl' true (Py.snoc cur Py.dquote) fields
              else split_scan tl false cur fields
          | EmptyString => split_scan tl false cur fields
          end
        else split_scan tl true (Py.snoc cur ch) fields
      else
        if Py.char_eqb ch Py.dquote then split_scan tl true cur fields
        else if Py.char_eqb ch Py.comma then
          split_scan tl false EmptyString (fields ++ [cur])
        else split_scan tl false (Py.snoc cur ch) fields
  end.

(** The test of the returned comprehension: [len(f) > 1], and [f[0]] and
    [f[-1]] are both the double quote. *)
Definition verbatim (f : string) : bool :=
  (1 <? Py.len f) && Py.startswith Py.dquote f && Py.endswith Py.dquote f.

(** One element of the returned list comprehension. *)
Definition post_process (f : string) : string :=
  if verbatim f then f else Py.strip f.

Definition split_csv_line (line : string) : list string :=
  let '(fields, cur) := split_scan line false EmptyString [] in
  post_process <$> (fields ++ [cur]).

(** ** Tabular Row Reader: [iter_csv_rows] *)

(** The file is the list of raw lines that iterating over it yields.  The
    generator is the list of the rows it yields; [buffer] is the loop
    variable of the same name. *)
Fixpoint iter_csv_rows_from (buffer : string) (raw_lines : list string)
    : list (list string) :=
  match raw_lines with
  | [] => []
  | raw_line :: more =>
      let line := Py.rstrip_newline raw_line in
      let buffer :=
        if Py.truthy buffer
        then buffer +:+ String Py.newline EmptyString +:+ line
        else line in
      let quote_count := Py.count Py.dquote buffer in
      if quote_count mod 2 =? 0
      then split_csv_line buffer :: iter_csv_rows_from EmptyString more
      else iter_csv_rows_from buffer more
  end.

Definition iter_csv_rows (raw_lines : list string) : list (list string) :=
  iter_csv_rows_from EmptyString raw_lines.

(** ** Genre List Extractor: [extract_genres] *)

(** [ch in (DQ, SQ)], the double and the single quote. *)
Definition is_quote (ch : ascii) : bool :=
  Py.char_eqb ch Py.dquote || Py.char_eqb ch Py.squote.

(** The two quote characters, the argument of the second [strip]. *)
Definition quote_chars : string :=
  String Py.dquote (String Py.squote EmptyString).

(** [inside[j] in ', '] *)
Definition is_sep (ch : ascii) : bool := Py.char_in ch ", ".

(** [token = inside[i:j].strip().strip(quote_chars)], appended when it is
    not empty. *)
Definition add_token (piece : string) (genres : list string) : list string :=
  let token := Py.strip_chars quote_chars (Py.strip piece) in
  if Py.truthy token then genres ++ [token] else genres.

(** The [while i < len(inside)] loop; [rest] is [inside[i:]].  The two inner
    [while] loops are the local fixpoints: [skip] moves [i] over the commas
    and spaces that follow a closing quote and resumes the outer loop where
    they stop, [token_end] moves [j] to the next comma, collecting
    [inside[i:j]] in [piece], and resumes the outer loop at [j + 1]. *)
Fixpoint bracket_scan (rest : string) (genres : list string) (cur : string)
    (in_q : bool) (qchar : option ascii) {struct rest} : list string :=
  match rest with
  | EmptyString => genres
  | String ch tl =>
      if negb in_q && is_quote ch then
        bracket_scan tl genres EmptyString true (Some ch)
      else if in_q then
        if bool_decide (Some ch = qchar) then
          (fix skip (l : string) : list string :=
             match l with
             | String c l' =>
                 if is_sep c then skip l'
                 else bracket_scan l (genres ++ [cur]) cur false None
             | EmptyString => bracket_scan l (genres ++ [cur]) cur false None
             end) tl
        else bracket_scan tl genres (Py.snoc cur ch) true qchar
      else
        (fix token_end (l : string) (piece : string) : list string :=
           match l with
           | String c l' =>
               if Py.char_eqb c Py.comma
               then bracket_scan l' (add_token piece genres) cur in_q qchar
               else token_end l' (Py.snoc piece c)
           | EmptyString => add_token piece genres
           end) rest EmptyString
  end.

Definition extract_genres (genre_field : string) : list string :=
  let genre_field := Py.strip genre_field in
  let genre_field :=
    if Py.startswith Py.dquote genre_field && Py.endswith Py.dquote genre_field
    then Py.slice_1_m1 genre_field else genre_field in
  if Py.startswith Py.lbracket genre_field
     && Py.endswith Py.rbracket genre_field
  then
    let inside := Py.strip (Py.slice_1_m1 genre_field) in
    bracket_scan inside [] EmptyString false None
  else
    (λ g, Py.strip_chars quote_chars (Py.strip g))
      <$> filter (λ g, Py.truthy (Py.strip g)) (Py.split_comma genre_field).

(** ** Exceptions *)

Inductive exn : Type :=
  | ValueError (msg : string)
  | IndexError.

Inductive result (A : Type) : Type :=
  | Ok (a : A)
  | Raise (e : exn).
Arguments Ok {A} a.
Arguments Raise {A} e.

(** Statements in sequence: an exception ends the rest. *)
#[global] Instance result_bind : MBind result :=
  λ A B k r, match r with
             | Ok a => k a
             | Raise e => Raise e
             end.

(** [row[idx]] for an index that is not negative. *)
Definition index (row : list string) (idx : nat) : result string :=
  match row !! idx with
  | Some cell => Ok cell
  | None => Raise IndexError
  end.

(** ** Aggregator: column resolution *)

(** [d[k] = v] on a dictionary that keeps insertion order: an existing key
    keeps its place and takes the new value, a new key goes last. *)
Fixpoint dict_set (d : list (string * nat)) (k : string) (v : nat)
    : list (string * nat) :=
  match d with
  | [] => [(k, v)]
  | (k', v') :: d' =>
      if bool_decide (k' = k) then (k', v) :: d'
      else (k', v') :: dict_set d' k v
  end.

(** [{h.strip(): idx for idx, h in enumerate(header)}], the enumeration
    starting at [start]. *)
Fixpoint header_map_from (d : list (string * nat)) (start : nat)
    (header : list string) : list (string * nat) :=
  match header with
  | [] => d
  | h :: more => header_map_from (dict_set d (Py.strip h) start) (S start) more
  end.

Definition header_map (header : list string) : list (string * nat) :=
  header_map_from [] 0 header.

(** [next((idx for name, idx in items if test(name)), None)] *)
Fixpoint next_idx (test : string → bool) (items : list (string * nat))
    : option nat :=
  match items with
  | [] => None
  | (name, idx) :: more => if test name then Some idx else next_idx test more
  end.

Definition is_genre_name (name : string) : bool :=
  Py.contains "genre" (Py.lower name).

Definition is_schedule_name (name : string) : bool :=
  Py.contains "schedule" (Py.lower name) && Py.contains "time" (Py.lower name).

Definition genres_col_of (header : list string) : option nat :=
  next_idx is_genre_name (header_map header).

Definition schedule_col_of (header : list string) : option nat :=
  next_idx is_schedule_name (header_map header).

Definition no_genres_msg : string := "Could not find a Genres column in header".
Definition no_schedule_msg : string :=
  "Could not find a Schedule (time) column in header".

(** The two [if ... is None: raise ValueError(...)] statements. *)
Definition resolve_columns (header : list string) : result (nat * nat) :=
  let genres_col := genres_col_of header in
  let schedule_col := schedule_col_of header in
  match genres_col with
  | None => Raise (ValueError no_genres_msg)
  | Some gc =>
      match schedule_col with
      | None => Raise (ValueError no_schedule_msg)
      | Some sc => Ok (gc, sc)
      end
  end.

(** ** Aggregator: counting *)

(** The body of [for genre in genres]. *)
Definition count_genre (time : string) (counts : gmap string (gmap string nat))
    (genre : string) : gmap string (gmap string nat) :=
  if negb (Py.truthy genre) then counts
  else
    let genre_counts := default ∅ (counts !! genre) in
    <[genre := <[time := default 0 (genre_counts !! time) + 1]> genre_counts]>
      counts.

(** The body of [for row in rows]. *)
Definition count_row (genres_col schedule_col : nat)
    (counts : gmap string (gmap string nat)) (row : list string)
    : result (gmap string (gmap string nat)) :=
  if bool_decide (length row ≤ genres_col `max` schedule_col) then Ok counts
  else
    raw_genres ← index row genres_col ;
    cell ← index row schedule_col ;
    let time := Py.strip cell in
    if negb (Py.truthy time) then Ok counts
    else Ok (foldl (count_genre time) counts (extract_genres raw_genres)).

Fixpoint count_rows (genres_col schedule_col : nat)
    (counts : gmap string (gmap string nat)) (rows : list (list string))
    : result (gmap string (gmap string nat)) :=
  match rows with
  | [] => Ok counts
  | row :: more =>
      counts ← count_row genres_col schedule_col counts row ;
      count_rows genres_col schedule_col counts more
  end.

(** ** Resolver *)

(** [a < b] on the keys [(x[1], x[0])] of two items: tuples compare
    component by component. *)
Definition key_lt (a b : string * nat) : bool :=
  (a.2 <? b.2) || ((a.2 =? b.2) && Py.ltb a.1 b.1).

(** [max(items, key=...)]: the first item whose key no other item exceeds. *)
Fixpoint max_from (best : string * nat) (items : list (string * nat))
    : string * nat :=
  match items with
  | [] => best
  | x :: more => if key_lt best x then max_from x more else max_from best more
  end.

Definition max_empty_msg : string := "max() arg is an empty sequence".

Definition py_max (items : list (string * nat)) : result (string * nat) :=
  match items with
  | [] => Raise (ValueError max_empty_msg)
  | x :: more => Ok (max_from x more)
  end.

(** [max(time_counts.items(), key=lambda x: (x[1], x[0]))[0]] *)
Definition best_time (time_counts : gmap string nat) : result string :=
  best ← py_max (map_to_list time_counts) ; Ok best.1.

(** The body of [for genre, time_counts in counts.items()]. *)
Definition resolve_step (res : result (gmap string string))
    (item : string * gmap string nat) : result (gmap string string) :=
  res ← res ;
  best ← best_time item.2 ;
  Ok (<[item.1 := best]> res).

Definition resolve (counts : gmap string (gmap string nat))
    : result (gmap string string) :=
  foldl resolve_step (Ok ∅) (map_to_list counts).

(** ** [get_most_common_schedule_by_genre] *)

Definition get_most_common_schedule_by_genre (raw_lines : list string)
    : result (gmap string string) :=
  match iter_csv_rows raw_lines with
  | [] => Ok ∅
  | header :: rows =>
      cols ← resolve_columns header ;
      counts ← count_rows cols.1 cols.2 ∅ rows ;
      resolve counts
  end.

(** ** [_main] *)

(** The lines [_main] prints. *)
Inductive printed : Type :=
  | NoPathGiven
  | UsingFallback (path : string)
  | FileNotFound (path : string)
  | NoValidData
  | GenreLine (genre time : string)
  | ValueErrorLine (msg : string)
  | UnexpectedErrorLine (e : exn).

Definition fallback_path : string :=
  "C:/Users/sebas/Downloads/TV_show_data.csv".

(** [fs path] is the list of raw lines of the regular file at [path], when
    there is one.  The result is what is printed and the exit code. *)
Definition _main (fs : string → option (list string)) (argv : list string)
    : list printed * Z :=
  let '(warned, path) :=
    match argv !! 1 with
    | Some path => ([], path)
    | None => ([NoPathGiven; UsingFallback fallback_path], fallback_path)
    end in
  match fs path with
  | None => (warned ++ [FileNotFound path], 1%Z)
  | Some raw_lines =>
      match get_most_common_schedule_by_genre raw_lines with
      | Ok res =>
          if bool_decide (res = ∅) then (warned ++ [NoValidData], 1%Z)
          else
            (warned ++ ((λ genre, GenreLine genre (res !!! genre))
                          <$> merge_sort String.le (elements (dom res))),
             0%Z)
      | Raise (ValueError msg) => (warned ++ [ValueErrorLine msg], 1%Z)
      | Raise e => (warned ++ [UnexpectedErrorLine e], 1%Z)
      end
  end.

(** ** Inputs of the statements *)

(** A string between two double quotes, and a string followed by a newline. *)
Definition quoted (s : string) : string :=
  String Py.dquote (s +:+ String Py.dquote EmptyString).

Definition ln (s : string) : string := s +:+ String Py.newline EmptyString.

(** The text of a quoted CSV field with content [c]: every double quote of
    [c] is doubled. *)
Fixpoint escape (c : string) : string :=
  match c with
  | EmptyString => EmptyString
  | String ch tl =>
      if Py.char_eqb ch Py.dquote
      then String Py.dquote (String Py.dquote (escape tl))
      else String ch (escape tl)
  end.

(** A field as it is written in a record: bare, or quoted and escaped. *)
Inductive field : Type :=
  | Plain (s : string)
  | Quoted (c : string).

Definition render (f : field) : string :=
  match f with
  | Plain s => s
  | Quoted c => quoted (escape c)
  end.

Definition content (f : field) : string :=
  match f with
  | Plain s => s
  | Quoted c => c
  end.

(** A bare field holds neither a comma nor a double quote. *)
Definition well_formed (f : field) : Prop :=
  match f with
  | Plain s => Py.count Py.comma s = 0 ∧ Py.count Py.dquote s = 0
  | Quoted _ => True
  end.

(** [sep.join(pieces)] for a one-character [sep]. *)
Fixpoint join (sep : ascii) (pieces : list string) : string :=
  match pieces with
  | [] => EmptyString
  | [piece] => piece
  | piece :: more => piece +:+ String sep (join sep more)
  end.

(** A text is complete when it holds an even number of double quotes. *)
Definition complete (text : string) : Prop :=
  Py.count Py.dquote text mod 2 = 0.

(** The text that a group of consecutive raw lines accumulates to. *)
Definition record_of (group : list string) : string :=
  join Py.newline (Py.rstrip_newline <$> group).

(** A group of raw lines closes a record when its text is complete and the
    text of none of its shorter beginnings is. *)
Definition closes (group : list string) : Prop :=
  group ≠ []
  ∧ (∀ k, 0 < k < length group → ¬ complete (record_of (take k group)))
  ∧ complete (record_of group).

(** Raw lines dangle when the text of none of their beginnings is complete. *)
Definition dangling (tail : list string) : Prop :=
  ∀ k, 0 < k ≤ length tail → ¬ complete (record_of (take k tail)).

(** The order of the keys [(x[1], x[0])]: by count, then by the string. *)
Definition key_le (a b : string * nat) : Prop :=
  a.2 < b.2 ∨ (a.2 = b.2 ∧ (a.1 ≤ b.1)%string).

(** The count of a genre for a schedule value in the Frequency Table: zero
    where there is no entry. *)
Definition count_of (counts : gmap string (gmap string nat))
    (genre time : string) : nat :=
  default 0 (counts !! genre ≫= (.!! time)).

(** How many times a genre occurs in an extracted genre list. *)
Definition occurrences (genre : string) (genres : list string) : nat :=
  length (filter (λ g, g = genre) genres).

(** The genres a data row contributes: the non-empty names of its genre
    list, when the row covers both columns and its trimmed schedule value is
    not empty. *)
Definition genres_of_row (genres_col schedule_col : nat) (row : list string)
    : list string :=
  match row !! genres_col, row !! schedule_col with
  | Some raw_genres, Some cell =>
      if bool_decide (Py.strip cell = EmptyString) then []
      else filter (λ g, g ≠ EmptyString) (extract_genres raw_genres)
  | _, _ => []
  end.

(** The genres seen in the data rows. *)
Definition genres_seen (genres_col schedule_col : nat)
    (rows : list (list string)) : list string :=
  rows ≫= genres_of_row genres_col schedule_col.

(** Every genre of the Frequency Table has an entry, and every entry counts
    at least one. *)
Definition populated (counts : gmap string (gmap string nat)) : Prop :=
  ∀ genre time_counts,
    counts !! genre = Some time_counts →
    time_counts ≠ ∅ ∧ map_Forall (λ _ c, 1 ≤ c) time_counts.

(** A complete quoted name of a bracketed genre list: the quote character
    that opens and closes it, the name, and the commas and spaces after it. *)
Record list_item : Type := {
  opener : ascii;
  name : string;
  gap : string
}.

Definition item_text (it : list_item) : string :=
  String (opener it) (name it +:+ String (opener it) (gap it)).

Fixpoint items_text (its : list list_item) : string :=
  match its with
  | [] => EmptyString
  | it :: more => item_text it +:+ items_text more
  end.

Definition item_ok (it : list_item) : Prop :=
  is_quote (opener it) = true
  ∧ Py.count (opener it) (name it) = 0
  ∧ Py.lstrip_by is_sep (gap it) = EmptyString.

(** The text between two square brackets. *)
Definition bracketed (inside : string) : string :=
  String Py.lbracket (inside +:+ String Py.rbracket EmptyString).

(** [inside[i:j]] and [inside[j + 1:]] for the first comma [j] at or after
    [i], where [rest] is [inside[i:]]; without a comma the piece is all of
    [rest]. *)
Fixpoint before_comma (rest : string) : string :=
  match rest with
  | EmptyString => EmptyString
  | String c tl =>
      if Py.char_eqb c Py.comma then EmptyString
      else String c (before_comma tl)
  end.

Fixpoint after_comma (rest : string) : option string :=
  match rest with
  | EmptyString => None
  | String c tl => if Py.char_eqb c Py.comma then Some tl else after_comma tl
  end.

(** The trimmed names of a header, the keys of its header mapping. *)
Definition names_of (header : list string) : list string :=
  Py.strip <$> header.

(** The first position, counted from [start], of a name that passes a
    test. *)
Fixpoint first_pos_from (start : nat) (test : string → bool)
    (names : list string) : option nat :=
  match names with
  | [] => None
  | n :: more =>
      if test n then Some start else first_pos_from (S start) test more
  end.

Definition first_pos (test : string → bool) (names : list string)
    : option nat :=
  first_pos_from 0 test names.

(** The last position, counted from [start], of a given name. *)
Fixpoint last_pos_from (start : nat) (name : string) (names : list string)
    : option nat :=
  match names with
  | [] => None
  | n :: more =>
      match last_pos_from (S start) name more with
      | Some j => Some j
      | None => if bool_decide (n = name) then Some start else None
      end
  end.

Definition last_pos (name : string) (names : list string) : option nat :=
  last_pos_from 0 name names.

(** The column that goes with a test: the last position of the first name
    that passes it. *)
Definition column_of (test : string → bool) (header : list string)
    : option nat :=
  name ← List.find test (names_of header); last_pos name (names_of header).

(** The first key of an ordered dictionary that passes a test. *)
Definition next_key (test : string → bool) (d : list (string * nat))
    : option string :=
  List.find test d.*1.

(** Every newline of a text lies inside a quoted field, when the text is
    read from inside ([inside = true]) or outside a quoted field: a double
    quote toggles the side. *)
Fixpoint guarded (inside : bool) (text : string) : bool :=
  match text with
  | EmptyString => true
  | String c tl =>
      if Py.char_eqb c Py.dquote then guarded (negb inside) tl
      else if Py.char_eqb c Py.newline then inside && guarded inside tl
      else guarded inside tl
  end.

(** A field that can be written in a record of a file: if bare, it has no
    comma, no double quote and no newline. *)
Definition line_safe (f : field) : Prop :=
  well_formed f
  ∧ match f with
    | Plain s => Py.count Py.newline s = 0
    | Quoted _ => True
    end.

(** [', '.join(names)] *)
Definition join_comma_space (names : list string) : string :=
  match names with
  | [] => EmptyString
  | first :: others => join Py.comma (first :: (String " " <$> others))
  end.

(** A genre name that the plain comma-separated format can carry: it is not
    empty, has no comma, and neither whitespace nor a quote character at
    either end. *)
Definition clean_name (nm : string) : Prop :=
  nm ≠ EmptyString
  ∧ Py.count Py.comma nm = 0
  ∧ Py.strip nm = nm
  ∧ Py.strip_chars quote_chars nm = nm.

(** What a data row counts: one pair of a genre and the trimmed schedule
    value of the row for every genre the row contributes. *)
Definition pairs_of_row (genres_col schedule_col : nat) (row : list string)
    : list (string * string) :=
  (λ genre, (genre, Py.strip (default EmptyString (row !! schedule_col))))
    <$> genres_of_row genres_col schedule_col row.

(** How many times the data rows count a genre for a schedule value. *)
Definition tally (genres_col schedule_col : nat) (rows : list (list string))
    (genre time : string) : nat :=
  length (filter (λ pr, pr = (genre, time))
            (rows ≫= pairs_of_row genres_col schedule_col)).

(** What [_main] prints before its report: nothing when a path is given,
    the two lines about the fallback path otherwise. *)
Definition fallback_warning (argv : list string) : list printed :=
  match argv !! 1 with
  | Some _ => []
  | None => [NoPathGiven; UsingFallback fallback_path]
  end.









(** * Properties *)

(** ** Strings *)

Section strings.

Lemma append_cons c s t : String c s +:+ t = String c (s +:+ t).
Proof. reflexivity. Qed.

Lemma append_nil_r s : s +:+ EmptyString = s.
Proof. induction s as [|c s IH]; [done|]. by rewrite append_cons, IH. Qed.

Lemma append_assoc s t u : (s +:+ t) +:+ u = s +:+ (t +:+ u).
Proof. induction s as [|c s IH]; [done|]. by rewrite !append_cons, IH. Qed.

Lemma snoc_app cur ch s : Py.snoc cur ch +:+ s = cur +:+ String ch s.
Proof. unfold Py.snoc. by rewrite append_assoc. Qed.

Lemma char_eqb_eq a b : Py.char_eqb a b = true ↔ a = b.
Proof. apply Ascii.eqb_eq. Qed.

Lemma char_eqb_neq a b : Py.char_eqb a b = false ↔ a ≠ b.
Proof. apply Ascii.eqb_neq. Qed.

Lemma count_app c s t : Py.count c (s +:+ t) = Py.count c s + Py.count c t.
Proof.
  induction s as [|d s IH]; [done|].
  rewrite append_cons. simpl. rewrite IH. lia.
Qed.

End strings.

(** ** Record Splitter *)

Section splitter.

(** Inside quotes the loop reads an escaped content and its closing quote
    as the content itself, commas included. *)
Lemma split_scan_escaped c rest cur fields :
  Py.startswith Py.dquote rest = false →
  split_scan (escape c +:+ String Py.dquote rest) true cur fields
  = split_scan rest false (cur +:+ c) fields.
Proof.
  intros Hrest. revert cur.
  induction c as [|ch c IH]; intros cur.
  - rewrite append_nil_r. simpl.
    destruct rest as [|next rest']; [done|].
    simpl in Hrest. by rewrite Hrest.
  - simpl. destruct (Py.char_eqb ch Py.dquote) eqn:Hch.
    + apply char_eqb_eq in Hch as ->.
      rewrite !append_cons. simpl. rewrite IH. by rewrite snoc_app.
    + rewrite append_cons. simpl. rewrite Hch, IH. by rewrite snoc_app.
Qed.

(** Outside quotes a bare field is read character by character. *)
Lemma split_scan_plain s rest cur fields :
  Py.count Py.comma s = 0 → Py.count Py.dquote s = 0 →
  split_scan (s +:+ rest) false cur fields
  = split_scan rest false (cur +:+ s) fields.
Proof.
  revert cur. induction s as [|ch s IH]; intros cur Hcomma Hquote.
  - by rewrite append_nil_r.
  - simpl in Hcomma, Hquote. rewrite append_cons. simpl.
    destruct (Py.char_eqb ch Py.dquote); [done|].
    destruct (Py.char_eqb ch Py.comma); [done|].
    rewrite IH by done. by rewrite snoc_app.
Qed.

Lemma split_scan_field f rest cur fields :
  well_formed f → Py.startswith Py.dquote rest = false →
  split_scan (render f +:+ rest) false cur fields
  = split_scan rest false (cur +:+ content f) fields.
Proof.
  intros Hf Hrest. destruct f as [s|c]; simpl.
  - destruct Hf. by apply split_scan_plain.
  - rewrite append_assoc, append_cons. by apply split_scan_escaped.
Qed.

Lemma split_scan_comma rest cur fields :
  split_scan (String Py.comma rest) false cur fields
  = split_scan rest false EmptyString (fields ++ [cur]).
Proof. reflexivity. Qed.

Lemma split_scan_join f fs fields :
  Forall well_formed (f :: fs) →
  let '(fields', cur') :=
    split_scan (join Py.comma (render <$> f :: fs)) false EmptyString fields in
  fields' ++ [cur'] = fields ++ (content <$> f :: fs).
Proof.
  revert f fields. induction fs as [|g fs IH]; intros f fields Hwf.
  - apply Forall_cons in Hwf as [Hf _].
    pose proof (split_scan_field f EmptyString EmptyString fields Hf eq_refl)
      as Hscan.
    rewrite append_nil_r in Hscan. simpl. by rewrite Hscan.
  - apply Forall_cons in Hwf as [Hf Hwf].
    change (join Py.comma (render <$> f :: g :: fs))
      with (render f +:+ String Py.comma (join Py.comma (render <$> g :: fs))).
    rewrite split_scan_field by done.
    rewrite split_scan_comma.
    change (EmptyString +:+ content f) with (content f).
    specialize (IH g (fields ++ [content f]) Hwf).
    destruct (split_scan _ false EmptyString (fields ++ [content f]))
      as [fields' cur'].
    rewrite IH, <- (assoc_L (++)). done.
Qed.

(** The splitter on a record of bare and quoted fields: one returned field
    per written field, the post-processed content of it. *)
Lemma split_csv_line_fields (fs : list field) :
  fs ≠ [] → Forall well_formed fs →
  split_csv_line (join Py.comma (render <$> fs))
  = (λ f, post_process (content f)) <$> fs.
Proof.
  intros Hne Hwf. destruct fs as [|f fs]; [done|].
  unfold split_csv_line.
  pose proof (split_scan_join f fs [] Hwf) as Hscan.
  destruct (split_scan _ false EmptyString []) as [fields' cur'].
  rewrite Hscan, app_nil_l. symmetry.
  apply (list_fmap_compose content post_process).
Qed.

(** What post-processing keeps: a field passes unchanged exactly when its
    content begins and ends with a double quote of its own, or when
    trimming has nothing to remove. *)
Lemma post_process_keeps f :
  post_process f = f ↔ verbatim f = true ∨ Py.strip f = f.
Proof.
  unfold post_process. destruct (verbatim f).
  - split; [by left | done].
  - split; [by right | by intros [?|?]].
Qed.

End splitter.

(** ** Resolver *)

Section resolver.

Lemma ltb_true_le a b : Py.ltb a b = true → (a ≤ b)%string.
Proof.
  unfold Py.ltb, String.ltb, String.le, String.leb.
  destruct (String.compare a b); simpl; intros; done.
Qed.

Lemma ltb_false_le a b : Py.ltb a b = false → (b ≤ a)%string.
Proof.
  unfold Py.ltb, String.ltb, String.le, String.leb.
  rewrite (String.compare_antisym b a).
  destruct (String.compare a b); simpl; intros; done.
Qed.

Lemma key_lt_true a b : key_lt a b = true → key_le a b.
Proof.
  unfold key_lt, key_le. intros H.
  apply orb_true_iff in H as [H|H].
  - left. by apply Nat.ltb_lt.
  - apply andb_true_iff in H as [H1 H2]. right.
    split; [by apply Nat.eqb_eq | by apply ltb_true_le].
Qed.

Lemma key_lt_false a b : key_lt a b = false → key_le b a.
Proof.
  unfold key_lt, key_le. intros H.
  apply orb_false_iff in H as [H1 H2].
  apply Nat.ltb_ge in H1.
  apply andb_false_iff in H2 as [H2|H2].
  - apply Nat.eqb_neq in H2. left. lia.
  - destruct (decide (a.2 = b.2)) as [Heq|Hne]; [|left; lia].
    right. split; [done | by apply ltb_false_le].
Qed.

#[local] Instance key_le_refl : Reflexive key_le.
Proof. intros a. right. done. Qed.

#[local] Instance key_le_trans : Transitive key_le.
Proof.
  intros a b c [Hab|[Hab Hab']] [Hbc|[Hbc Hbc']]; unfold key_le.
  - left. lia.
  - left. lia.
  - left. lia.
  - right. split; [congruence | by etrans].
Qed.

Lemma max_from_in best items : max_from best items ∈ best :: items.
Proof.
  revert best. induction items as [|x items IH]; intros best; simpl.
  - apply list_elem_of_singleton. done.
  - destruct (key_lt best x).
    + apply elem_of_cons. right. apply IH.
    + specialize (IH best). apply elem_of_cons in IH as [IH|IH].
      * rewrite IH. apply elem_of_cons. by left.
      * apply elem_of_cons. right. apply elem_of_cons. by right.
Qed.

Lemma max_from_above best items : key_le best (max_from best items).
Proof.
  revert best. induction items as [|x items IH]; intros best; simpl.
  - done.
  - destruct (key_lt best x) eqn:Hlt; [|done].
    etrans; [by apply key_lt_true | done].
Qed.

Lemma max_from_greatest best items x :
  x ∈ best :: items → key_le x (max_from best items).
Proof.
  revert best. induction items as [|y items IH]; intros best Hx; simpl.
  - apply list_elem_of_singleton in Hx as ->. done.
  - destruct (key_lt best y) eqn:Hlt.
    + apply elem_of_cons in Hx as [->|Hx]; [|by apply IH].
      etrans; [by apply key_lt_true | apply max_from_above].
    + apply elem_of_cons in Hx as [->|Hx]; [apply max_from_above|].
      apply elem_of_cons in Hx as [->|Hx].
      * etrans; [by apply key_lt_false | apply max_from_above].
      * apply IH. apply elem_of_cons. by right.
Qed.

(** The resolver on a count mapping that is not empty: it returns a
    schedule value of the highest count and, among the values of that
    count, the greatest string. *)
Lemma best_time_greatest (time_counts : gmap string nat) t :
  best_time time_counts = Ok t →
  ∃ c, time_counts !! t = Some c
       ∧ ∀ t' c', time_counts !! t' = Some c' →
                  c' < c ∨ (c' = c ∧ (t' ≤ t)%string).
Proof.
  unfold best_time, py_max. intros Hbest.
  destruct (map_to_list time_counts) as [|x items] eqn:Hitems; [done|].
  simpl in Hbest. injection Hbest as <-.
  pose proof (max_from_in x items) as Hin.
  rewrite <- Hitems in Hin.
  destruct (max_from x items) as [t c] eqn:Hmax.
  apply elem_of_map_to_list in Hin.
  exists c. split; [done|]. intros t' c' Ht'.
  apply elem_of_map_to_list in Ht'. rewrite Hitems in Ht'.
  apply (max_from_greatest x items) in Ht'.
  rewrite Hmax in Ht'. exact Ht'.
Qed.

(** The selection of a maximum fails on the empty mapping only. *)
Lemma best_time_total (time_counts : gmap string nat) :
  time_counts ≠ ∅ → ∃ t, best_time time_counts = Ok t.
Proof.
  intros Hne. unfold best_time, py_max.
  destruct (map_to_list time_counts) as [|x items] eqn:Hitems.
  - by apply map_to_list_empty_iff in Hitems.
  - by eexists.
Qed.

(** C1 (as the code behaves): on the count mapping of the specification's
    example, where 8PM and 7PM are tied at 3, the resolver returns 8PM, the
    greater of the two strings, and not 7PM. *)
Theorem best_time_tie_returns_8PM :
  best_time {[ "8PM" := 3; "7PM" := 3 ]} = Ok "8PM".
Proof. vm_compute. reflexivity. Qed.

End resolver.

(** ** The claims on the Record Splitter *)

Section splitter_claims.

(** A quoted field alone on its record. *)
Lemma split_csv_line_quoted c :
  split_csv_line (quoted (escape c)) = [post_process c].
Proof. by apply (split_csv_line_fields [Quoted c]); [|repeat constructor]. Qed.

(** A quoted field is trimmed like a bare one, unless its own content
    begins and ends with a double quote. *)
Lemma split_csv_line_quoted_trimmed c :
  verbatim c = false → split_csv_line (quoted (escape c)) = [Py.strip c].
Proof.
  intros Hc. rewrite split_csv_line_quoted. unfold post_process.
  by rewrite Hc.
Qed.

(** C2 (as the code behaves): every quoted field alone on its record comes
    back trimmed, unless its own content begins and ends with a double quote;
    so the record that is the quoted field with content [  x  ] comes back as
    the single field [x]: the whitespace around the content of a quoted
    field is removed, not kept. *)
Theorem split_csv_line_trims_quoted_field :
  (∀ c, split_csv_line (quoted (escape c))
        = [if verbatim c then c else Py.strip c])
  ∧ split_csv_line (quoted "  x  ") = ["x"].
Proof.
  split; [|reflexivity].
  intros c. by rewrite split_csv_line_quoted.
Qed.

(** C6 (as the code behaves): a quoted field between two bare fields comes
    back as one field, whatever commas and double quotes its content holds,
    but as the post-processed content; so in the record [1," a,b ",2] the
    quoted field is not split at its comma and the returned field is [a,b],
    the content without its surrounding whitespace, not the content [ a,b ]
    itself; a doubled double quote comes back as one. *)
Theorem split_csv_line_quoted_comma_field :
  (∀ c, split_csv_line ("1," +:+ quoted (escape c) +:+ ",2")
        = ["1"; post_process c; "2"])
  ∧ split_csv_line ("1," +:+ quoted " a,b " +:+ ",2") = ["1"; "a,b"; "2"]
  ∧ split_csv_line (quoted (escape (" a" +:+ quoted "b" +:+ " ")))
    = ["a" +:+ quoted "b"].
Proof.
  split; [|split; reflexivity].
  intros c.
  apply (split_csv_line_fields [Plain "1"; Quoted c; Plain "2"]); [done|].
  repeat apply Forall_cons_2; [| |  |apply Forall_nil_2]; done.
Qed.

End splitter_claims.

(** ** The claims on the Genre List Extractor: examples *)

Section extractor_examples.

(** C7: the bracketed list of quoted names, with and without the double
    quotes of the CSV field around it, and the plain comma-separated text
    both give Action and then Drama. *)
Theorem extract_genres_action_drama :
  extract_genres (quoted "['Action', 'Drama']") = ["Action"; "Drama"]
  ∧ extract_genres "['Action', 'Drama']" = ["Action"; "Drama"]
  ∧ extract_genres "Action, Drama" = ["Action"; "Drama"].
Proof. repeat split; reflexivity. Qed.

End extractor_examples.

(** ** Tabular Row Reader *)

Section reader.

Lemma truthy_count c s : 0 < Py.count c s → Py.truthy s = true.
Proof. destruct s; simpl; [lia | done]. Qed.

Lemma not_complete_truthy s : ¬ complete s → Py.truthy s = true.
Proof.
  unfold complete. intros Hs. apply (truthy_count Py.dquote).
  destruct (Py.count Py.dquote s); [done | lia].
Qed.

Lemma join_snoc sep pieces piece :
  pieces ≠ [] →
  join sep (pieces ++ [piece]) = join sep pieces +:+ String sep piece.
Proof.
  induction pieces as [|p [|q pieces] IH]; intros Hne; [done|done|].
  change (join sep ((p :: q :: pieces) ++ [piece]))
    with (p +:+ String sep (join sep ((q :: pieces) ++ [piece]))).
  rewrite IH by done.
  change (join sep (p :: q :: pieces))
    with (p +:+ String sep (join sep (q :: pieces))).
  by rewrite append_assoc.
Qed.

Lemma record_of_snoc group raw_line :
  group ≠ [] →
  record_of (group ++ [raw_line])
  = record_of group +:+ String Py.newline (Py.rstrip_newline raw_line).
Proof.
  intros Hne. unfold record_of. rewrite fmap_app. apply join_snoc.
  by destruct group.
Qed.

(** One turn of the loop. *)
Lemma iter_csv_rows_from_cons buffer raw_line more :
  iter_csv_rows_from buffer (raw_line :: more)
  = let line := Py.rstrip_newline raw_line in
    let buffer :=
      if Py.truthy buffer then buffer +:+ String Py.newline line else line in
    if bool_decide (complete buffer)
    then split_csv_line buffer :: iter_csv_rows_from EmptyString more
    else iter_csv_rows_from buffer more.
Proof.
  cbn [iter_csv_rows_from]. unfold complete.
  change (String Py.newline EmptyString +:+ Py.rstrip_newline raw_line)
    with (String Py.newline (Py.rstrip_newline raw_line)).
  set (buffer' := if Py.truthy buffer then _ else _).
  destruct (Nat.eqb_spec (Py.count Py.dquote buffer' mod 2) 0) as [H|H].
  - by rewrite bool_decide_eq_true_2.
  - by rewrite bool_decide_eq_false_2.
Qed.

(** While no beginning of the lines read is complete, the buffer is the
    text of all of them. *)
Lemma iter_csv_rows_from_open group more :
  dangling group →
  iter_csv_rows_from EmptyString (group ++ more)
  = iter_csv_rows_from (record_of group) more.
Proof.
  revert more.
  induction group as [|raw_line group IH] using rev_ind; intros more Hopen.
  { done. }
  assert (dangling group) as Hgroup.
  { intros k Hk. specialize (Hopen k). rewrite length_app in Hopen.
    rewrite take_app_le in Hopen by lia. apply Hopen. simpl. lia. }
  rewrite <- (assoc_L (++)). rewrite IH by done.
  change ([raw_line] ++ more) with (raw_line :: more).
  rewrite iter_csv_rows_from_cons. cbv zeta.
  assert (¬ complete (record_of (group ++ [raw_line]))) as Hlast.
  { specialize (Hopen (length (group ++ [raw_line]))).
    rewrite firstn_all in Hopen. apply Hopen.
    rewrite length_app. simpl. lia. }
  destruct group as [|first group].
  - simpl in *. by rewrite bool_decide_eq_false_2.
  - rewrite not_complete_truthy.
    + rewrite <- record_of_snoc by done. by rewrite bool_decide_eq_false_2.
    + specialize (Hgroup (length (first :: group))).
      rewrite firstn_all in Hgroup. apply Hgroup. simpl. lia.
Qed.

(** A group that closes a record makes the reader yield its split text and
    start afresh. *)
Lemma iter_csv_rows_from_closes group more :
  closes group →
  iter_csv_rows_from EmptyString (group ++ more)
  = split_csv_line (record_of group) :: iter_csv_rows_from EmptyString more.
Proof.
  intros (Hne & Hopen & Hdone).
  destruct group as [|raw_line group _] using rev_ind; [done|].
  assert (dangling group) as Hgroup.
  { intros k Hk. specialize (Hopen k). rewrite length_app in Hopen.
    destruct (decide (k = length group)) as [->|Hlt].
    - rewrite take_app_length in Hopen. rewrite firstn_all.
      apply Hopen. simpl. lia.
    - rewrite take_app_le in Hopen by lia. apply Hopen. simpl. lia. }
  rewrite <- (assoc_L (++)). rewrite iter_csv_rows_from_open by done.
  change ([raw_line] ++ more) with (raw_line :: more).
  rewrite iter_csv_rows_from_cons. cbv zeta.
  destruct group as [|first group].
  - simpl in *. by rewrite bool_decide_eq_true_2.
  - rewrite not_complete_truthy.
    + rewrite <- record_of_snoc by done. by rewrite bool_decide_eq_true_2.
    + specialize (Hgroup (length (first :: group))).
      rewrite firstn_all in Hgroup. apply Hgroup. simpl. lia.
Qed.

(** C5: when the raw lines are cut into consecutive groups that each close
    a record, followed by lines that dangle, the reader yields one row per
    group, the split of the text the group accumulates to (its lines, each
    without its final newline, joined by newlines), and nothing for the
    dangling lines. *)
Theorem iter_csv_rows_groups (groups : list (list string)) tail :
  Forall closes groups → dangling tail →
  iter_csv_rows (concat groups ++ tail)
  = (λ group, split_csv_line (record_of group)) <$> groups.
Proof.
  intros Hgroups Htail. unfold iter_csv_rows.
  induction Hgroups as [|group groups Hgroup _ IH].
  - simpl. rewrite <- (right_id_L [] (++) tail) at 1.
    by rewrite (iter_csv_rows_from_open tail []).
  - simpl. rewrite <- (assoc_L (++)).
    rewrite iter_csv_rows_from_closes by done. by rewrite IH.
Qed.

Lemma iter_csv_rows_groups_witness :
  iter_csv_rows
    (concat [[ln "a,b"];
             [ln (String Py.dquote "x"); ln ("y," +:+ String Py.dquote "")]]
     ++ [ln (String Py.dquote "z")])
  = (λ group, split_csv_line (record_of group))
      <$> [[ln "a,b"];
           [ln (String Py.dquote "x"); ln ("y," +:+ String Py.dquote "")]].
Proof.
  apply iter_csv_rows_groups.
  - repeat apply Forall_cons_2; [| |apply Forall_nil_2].
    + split; [done|]. split; [|reflexivity].
      intros k Hk. simpl in Hk. lia.
    + split; [done|]. split; [|reflexivity].
      intros k Hk. simpl in Hk. assert (k = 1) as -> by lia.
      intros Hc. vm_compute in Hc. discriminate Hc.
  - intros k Hk. simpl in Hk. assert (k = 1) as -> by lia.
    intros Hc. vm_compute in Hc. discriminate Hc.
Defined.

(** Every beginning of a list of raw lines is open, or some shortest one
    closes a record. *)
Lemma dangling_or_closes raw_lines :
  dangling raw_lines
  ∨ ∃ k, 0 < k ≤ length raw_lines ∧ closes (take k raw_lines).
Proof.
  induction raw_lines as [|raw_line group IH] using rev_ind.
  { left. intros k Hk. simpl in Hk. lia. }
  destruct IH as [Hopen|(k & Hk & Hcloses)].
  - destruct (decide (complete (record_of (group ++ [raw_line]))))
      as [Hdone|Hnot].
    + right. exists (length (group ++ [raw_line])).
      rewrite firstn_all, length_app. simpl.
      split; [lia|]. split; [by destruct group|]. split; [|done].
      intros k Hk. rewrite length_app in Hk. simpl in Hk.
      rewrite take_app_le by lia. apply Hopen. lia.
    + left. intros k Hk. rewrite length_app in Hk. simpl in Hk.
      destruct (decide (k = length group + 1)) as [->|Hlt].
      * replace (length group + 1) with (length (group ++ [raw_line]))
          by (rewrite length_app; reflexivity).
        by rewrite firstn_all.
      * rewrite take_app_le by lia. apply Hopen. lia.
  - right. exists k. rewrite length_app.
    split; [lia|]. by rewrite take_app_le by lia.
Qed.

(** Every list of raw lines is cut in that way, so that the statement of
    [iter_csv_rows_groups] covers every input. *)
Lemma groups_exist raw_lines :
  ∃ groups tail,
    raw_lines = concat groups ++ tail
    ∧ Forall closes groups ∧ dangling tail.
Proof.
  remember (length raw_lines) as n eqn:Hn. revert raw_lines Hn.
  induction n as [n IH] using lt_wf_ind. intros raw_lines ->.
  destruct (dangling_or_closes raw_lines) as [Hopen|(k & Hk & Hcloses)].
  - exists [], raw_lines. by repeat split.
  - destruct (IH (length (drop k raw_lines))
                ltac:(rewrite length_drop; lia) (drop k raw_lines) eq_refl)
      as (groups & tail & Hrest & Hgroups & Htail).
    exists (take k raw_lines :: groups), tail.
    split; [|split; [by constructor | done]].
    simpl. rewrite <- (assoc_L (++)), <- Hrest.
    by rewrite take_drop.
Qed.

End reader.

(** ** Aggregator: counting *)

Section counting.

Lemma truthy_true s : Py.truthy s = true ↔ s ≠ EmptyString.
Proof. by destruct s. Qed.

Lemma truthy_false s : Py.truthy s = false ↔ s = EmptyString.
Proof. by destruct s. Qed.

Lemma occurrences_cons genre g genres :
  occurrences genre (g :: genres)
  = (if decide (g = genre) then 1 else 0) + occurrences genre genres.
Proof.
  unfold occurrences. rewrite filter_cons.
  by destruct (decide (g = genre)).
Qed.

Lemma count_of_insert counts genre time_counts g t :
  count_of (<[genre := time_counts]> counts) g t
  = if decide (genre = g) then default 0 (time_counts !! t)
    else count_of counts g t.
Proof.
  unfold count_of. rewrite lookup_insert.
  by destruct (decide (genre = g)).
Qed.

(** One genre of a row: its count for the row's schedule value goes up by
    one, every other count stays. *)
Lemma count_of_count_genre time counts genre g t :
  count_of (count_genre time counts genre) g t
  = count_of counts g t
    + (if decide (genre ≠ EmptyString ∧ genre = g ∧ time = t) then 1 else 0).
Proof.
  unfold count_genre. destruct (Py.truthy genre) eqn:Hgenre; cbn [negb].
  - apply truthy_true in Hgenre.
    rewrite count_of_insert. destruct (decide (genre = g)) as [<-|Hne].
    + rewrite lookup_insert. unfold count_of.
      destruct (decide (time = t)) as [<-|Hne].
      * rewrite decide_True by done.
        destruct (counts !! genre) as [time_counts|]; simpl; [done|].
        by rewrite lookup_empty.
      * rewrite decide_False by tauto.
        destruct (counts !! genre) as [time_counts|]; simpl; [lia|].
        rewrite lookup_empty. done.
    + rewrite decide_False by tauto. lia.
  - apply truthy_false in Hgenre.
    rewrite decide_False by tauto. lia.
Qed.

Lemma count_of_foldl time genres counts g t :
  count_of (foldl (count_genre time) counts genres) g t
  = count_of counts g t
    + (if decide (g ≠ EmptyString ∧ time = t)
       then occurrences g genres else 0).
Proof.
  revert counts. induction genres as [|genre genres IH]; intros counts; simpl.
  { unfold occurrences. simpl. destruct (decide _); lia. }
  rewrite IH, count_of_count_genre, occurrences_cons.
  destruct (decide (genre = g)) as [->|Hne].
  - destruct (decide (g ≠ EmptyString ∧ time = t)) as [[??]|Hno].
    + rewrite decide_True by done. lia.
    + rewrite decide_False by tauto. lia.
  - rewrite (decide_False (P := _ ∧ genre = g ∧ _)) by tauto.
    destruct (decide _); lia.
Qed.

(** A row never raises: the length test guards both subscripts. *)
Lemma count_row_covered genres_col schedule_col counts row :
  ¬ length row ≤ genres_col `max` schedule_col →
  ∃ raw_genres cell,
    row !! genres_col = Some raw_genres ∧ row !! schedule_col = Some cell
    ∧ count_row genres_col schedule_col counts row
      = if negb (Py.truthy (Py.strip cell)) then Ok counts
        else Ok (foldl (count_genre (Py.strip cell)) counts
                   (extract_genres raw_genres)).
Proof.
  intros Hlen. unfold count_row. rewrite bool_decide_eq_false_2 by done.
  destruct (lookup_lt_is_Some_2 row genres_col) as [raw_genres Hg]; [lia|].
  destruct (lookup_lt_is_Some_2 row schedule_col) as [cell Hc]; [lia|].
  exists raw_genres, cell. unfold index. by rewrite Hg, Hc.
Qed.

(** C4: a data row that does not cover both columns leaves the Frequency
    Table as it is; so does a row whose trimmed schedule value is empty;
    any other row raises the count of every non-empty genre of its genre
    list, for its trimmed schedule value, by the number of times the genre
    occurs in the list (twice for a name written twice) and changes no
    other count. *)
Theorem count_row_counts genres_col schedule_col counts row :
  (length row ≤ genres_col `max` schedule_col →
   count_row genres_col schedule_col counts row = Ok counts)
  ∧ (∀ raw_genres cell,
       row !! genres_col = Some raw_genres → row !! schedule_col = Some cell →
       (Py.strip cell = EmptyString →
        count_row genres_col schedule_col counts row = Ok counts)
       ∧ (Py.strip cell ≠ EmptyString →
          ∃ counts',
            count_row genres_col schedule_col counts row = Ok counts'
            ∧ ∀ genre time,
                count_of counts' genre time
                = count_of counts genre time
                  + (if decide (genre ≠ EmptyString ∧ Py.strip cell = time)
                     then occurrences genre (extract_genres raw_genres)
                     else 0))).
Proof.
  split.
  { intros Hlen. unfold count_row. by rewrite bool_decide_eq_true_2. }
  intros raw_genres cell Hg Hc.
  assert (¬ length row ≤ genres_col `max` schedule_col) as Hlen.
  { apply lookup_lt_Some in Hg, Hc. lia. }
  destruct (count_row_covered genres_col schedule_col counts row Hlen)
    as (raw_genres' & cell' & Hg' & Hc' & Hrow).
  rewrite Hg in Hg'. rewrite Hc in Hc'.
  injection Hg' as <-. injection Hc' as <-.
  rewrite Hrow. split.
  - intros Hempty. by rewrite Hempty.
  - intros Htime. apply truthy_true in Htime. rewrite Htime. simpl.
    eexists. split; [done|]. intros genre time. apply count_of_foldl.
Qed.

Lemma count_row_counts_witness :
  count_row 0 1 ∅ ["Drama"] = Ok ∅
  ∧ count_row 0 1 ∅ ["Drama"; "  "] = Ok ∅
  ∧ ∃ counts',
      count_row 0 1 ∅ ["Drama, Drama"; " 8PM "] = Ok counts'
      ∧ ∀ genre time,
          count_of counts' genre time
          = count_of ∅ genre time
            + (if decide (genre ≠ EmptyString ∧ Py.strip " 8PM " = time)
               then occurrences genre (extract_genres "Drama, Drama")
               else 0).
Proof.
  split; [|split].
  - apply (count_row_counts 0 1 ∅ ["Drama"]). simpl. lia.
  - refine (proj1 (proj2 (count_row_counts 0 1 ∅ ["Drama"; "  "])
                      "Drama" "  " eq_refl eq_refl) _).
    reflexivity.
  - apply (count_row_counts 0 1 ∅ ["Drama, Drama"; " 8PM "]).
    + reflexivity.
    + reflexivity.
    + vm_compute. discriminate.
Defined.

(** ** Aggregator: the invariants of the Frequency Table *)

Lemma populated_empty : populated ∅.
Proof. intros genre time_counts Hg. by rewrite lookup_empty in Hg. Qed.

Lemma populated_count_genre time counts genre :
  populated counts → populated (count_genre time counts genre).
Proof.
  intros Hpop. unfold count_genre.
  destruct (Py.truthy genre); cbn [negb]; [|done].
  intros g time_counts. rewrite lookup_insert.
  destruct (decide (genre = g)) as [<-|Hne]; [|apply Hpop].
  intros [= <-]. split; [apply insert_non_empty|].
  apply map_Forall_insert_2; [lia|].
  destruct (counts !! genre) as [time_counts|] eqn:Hg; simpl.
  - by apply (Hpop genre).
  - apply map_Forall_empty.
Qed.

Lemma dom_count_genre time counts genre :
  dom (count_genre time counts genre)
  = dom counts ∪ list_to_set (filter (λ g, g ≠ EmptyString) [genre]).
Proof.
  unfold count_genre. destruct (Py.truthy genre) eqn:Hgenre; cbn [negb].
  - apply truthy_true in Hgenre. rewrite dom_insert_L.
    rewrite filter_cons_True by done. set_solver.
  - apply truthy_false in Hgenre. subst genre.
    rewrite filter_cons_False by (intros H; by apply H). set_solver.
Qed.

Lemma populated_foldl time genres counts :
  populated counts → populated (foldl (count_genre time) counts genres).
Proof.
  revert counts. induction genres as [|genre genres IH]; intros counts Hpop;
    [done|].
  simpl. apply IH. by apply populated_count_genre.
Qed.

Lemma dom_foldl time genres counts :
  dom (foldl (count_genre time) counts genres)
  = dom counts ∪ list_to_set (filter (λ g, g ≠ EmptyString) genres).
Proof.
  revert counts. induction genres as [|genre genres IH]; intros counts.
  { simpl. set_solver. }
  simpl. rewrite IH, dom_count_genre.
  change (genre :: genres) with ([genre] ++ genres).
  rewrite filter_app, list_to_set_app_L. set_solver.
Qed.

Lemma count_row_invariants genres_col schedule_col counts row :
  ∃ counts',
    count_row genres_col schedule_col counts row = Ok counts'
    ∧ (populated counts → populated counts')
    ∧ dom counts'
      = dom counts ∪ list_to_set (genres_of_row genres_col schedule_col row).
Proof.
  destruct (decide (length row ≤ genres_col `max` schedule_col))
    as [Hshort|Hlong].
  - exists counts. split; [|split; [done|]].
    + unfold count_row. by rewrite bool_decide_eq_true_2.
    + unfold genres_of_row.
      destruct (row !! genres_col) eqn:Hg; [|set_solver].
      destruct (row !! schedule_col) eqn:Hc; [|set_solver].
      apply lookup_lt_Some in Hg, Hc. lia.
  - destruct (count_row_covered genres_col schedule_col counts row Hlong)
      as (raw_genres & cell & Hg & Hc & Hrow).
    unfold genres_of_row. rewrite Hg, Hc, Hrow.
    destruct (Py.truthy (Py.strip cell)) eqn:Htime; cbn [negb].
    + apply truthy_true in Htime.
      rewrite bool_decide_eq_false_2 by done.
      eexists. split; [done|]. split; [apply populated_foldl|].
      apply dom_foldl.
    + apply truthy_false in Htime.
      rewrite bool_decide_eq_true_2 by done.
      exists counts. split; [done|]. split; [done|]. set_solver.
Qed.

Lemma count_rows_invariants genres_col schedule_col rows counts :
  ∃ counts',
    count_rows genres_col schedule_col counts rows = Ok counts'
    ∧ (populated counts → populated counts')
    ∧ dom counts'
      = dom counts ∪ list_to_set (genres_seen genres_col schedule_col rows).
Proof.
  revert counts. induction rows as [|row rows IH]; intros counts.
  { exists counts. split; [done|]. split; [done|].
    unfold genres_seen. simpl. set_solver. }
  destruct (count_row_invariants genres_col schedule_col counts row)
    as (counts1 & Hrow & Hpop1 & Hdom1).
  destruct (IH counts1) as (counts' & Hrows & Hpop' & Hdom').
  exists counts'. split; [|split].
  - simpl. rewrite Hrow. exact Hrows.
  - auto.
  - rewrite Hdom', Hdom1. unfold genres_seen. simpl.
    rewrite list_to_set_app_L. set_solver.
Qed.

(** The resolver loop over items of distinct genres, none with an empty
    count mapping: it ends without an exception, with the best time of
    every item added to the entries it started from. *)
Lemma resolve_items (items : list (string * gmap string nat)) acc :
  NoDup (items.*1) → Forall (λ item, item.2 ≠ ∅) items →
  ∃ res,
    foldl resolve_step (Ok acc) items = Ok res
    ∧ ∀ genre t,
        res !! genre = Some t
        ↔ (∃ time_counts,
             (genre, time_counts) ∈ items ∧ best_time time_counts = Ok t)
          ∨ ((genre ∉ items.*1) ∧ acc !! genre = Some t).
Proof.
  revert acc. induction items as [|[g tc] items IH]; intros acc Hnodup Hne.
  { exists acc. split; [done|]. intros genre t. split.
    - intros Hacc. right. split; [|done]. by apply not_elem_of_nil.
    - intros [(time_counts & Hin & _)|[_ Hacc]]; [|done].
      by apply elem_of_nil in Hin. }
  apply NoDup_cons in Hnodup as [Hfresh Hnodup].
  apply Forall_cons in Hne as [Htc Hne]. simpl in Htc, Hfresh.
  destruct (best_time_total tc Htc) as [t0 Ht0].
  destruct (IH (<[g := t0]> acc) Hnodup Hne) as (res & Hres & Hlookup).
  exists res. split.
  { cbn [foldl].
    assert (resolve_step (Ok acc) (g, tc) = Ok (<[g := t0]> acc)) as ->
      by (unfold resolve_step; simpl; by rewrite Ht0).
    exact Hres. }
  intros genre t. rewrite Hlookup. clear Hlookup Hres IH.
  rewrite fmap_cons, not_elem_of_cons, lookup_insert. simpl. split.
  - intros [(time_counts & Hin & Hbest)|[Hout Hacc]].
    + left. exists time_counts. split; [|done]. apply elem_of_cons. by right.
    + destruct (decide (g = genre)) as [<-|Hne'].
      * injection Hacc as <-. left. exists tc. split; [|done].
        apply elem_of_cons. by left.
      * right. by repeat split.
  - intros [(time_counts & Hin & Hbest)|[[Hne' Hout] Hacc]].
    + apply elem_of_cons in Hin as [[= -> ->]|Hin].
      * right. split; [done|]. rewrite decide_True by done. congruence.
      * left. by exists time_counts.
    + right. split; [done|]. by rewrite decide_False.
Qed.

(** On a populated Frequency Table the resolver gives every genre of the
    table the best time of its count mapping, and nothing else. *)
Lemma resolve_populated counts :
  populated counts →
  ∃ res,
    resolve counts = Ok res
    ∧ ∀ genre t,
        res !! genre = Some t
        ↔ ∃ time_counts,
            counts !! genre = Some time_counts ∧ best_time time_counts = Ok t.
Proof.
  intros Hpop. unfold resolve.
  destruct (resolve_items (map_to_list counts) ∅) as (res & Hres & Hlookup).
  { apply NoDup_fst_map_to_list. }
  { apply Forall_forall. intros [g tc] Hin.
    apply elem_of_map_to_list in Hin. by apply (Hpop g). }
  exists res. split; [done|]. intros genre t. rewrite Hlookup. split.
  - intros [(time_counts & Hin & Hbest)|[_ Hacc]].
    + exists time_counts. by apply elem_of_map_to_list in Hin.
    + by rewrite lookup_empty in Hacc.
  - intros (time_counts & Hg & Hbest). left. exists time_counts.
    by apply elem_of_map_to_list in Hg.
Qed.

(** C9: counting any data rows from the empty table ends without an
    exception in a table where every genre has at least one schedule value
    and every entry counts at least one; the resolver then ends without an
    exception in a Result Mapping whose genres are exactly the genres seen in
    the rows, each with the best time of its count mapping; and the
    selection of a maximum succeeds on every count mapping that is not
    empty. *)
Theorem frequency_table_invariants genres_col schedule_col rows :
  ∃ counts res,
    count_rows genres_col schedule_col ∅ rows = Ok counts
    ∧ populated counts
    ∧ resolve counts = Ok res
    ∧ (∀ genre,
         genre ∈ dom res ↔ genre ∈ genres_seen genres_col schedule_col rows)
    ∧ (∀ genre t,
         res !! genre = Some t
         ↔ ∃ time_counts,
             counts !! genre = Some time_counts
             ∧ best_time time_counts = Ok t)
    ∧ (∀ time_counts : gmap string nat,
         time_counts ≠ ∅ → ∃ t, best_time time_counts = Ok t).
Proof.
  destruct (count_rows_invariants genres_col schedule_col rows ∅)
    as (counts & Hrows & Hpop & Hdom).
  specialize (Hpop populated_empty).
  destruct (resolve_populated counts Hpop) as (res & Hres & Hlookup).
  exists counts, res.
  split; [done|]. split; [done|]. split; [done|].
  split; [|split; [done | apply best_time_total]].
  intros genre. split.
  - intros Hin. apply elem_of_dom in Hin as [t Ht].
    apply Hlookup in Ht as (time_counts & Hg & _).
    assert (genre ∈ dom counts) as Hgenre by (apply elem_of_dom; eauto).
    rewrite Hdom in Hgenre. set_solver.
  - intros Hseen.
    assert (genre ∈ dom counts) as Hgenre by (rewrite Hdom; set_solver).
    apply elem_of_dom in Hgenre as [time_counts Hg].
    destruct (Hpop genre time_counts Hg) as [Hne _].
    destruct (best_time_total time_counts Hne) as [t Ht].
    apply elem_of_dom. exists t. apply Hlookup. eauto.
Qed.

End counting.

(** ** The empty input *)

Section empty_input.

(** C10: when the reader yields no row, as for the file without lines,
    [get_most_common_schedule_by_genre] returns the empty mapping and raises
    nothing, although no column was found; it is [_main] that then reports
    that there is no valid data and returns the exit code 1. *)
Theorem empty_input_returns_empty_mapping raw_lines :
  iter_csv_rows raw_lines = [] →
  get_most_common_schedule_by_genre raw_lines = Ok ∅
  ∧ ∀ fs argv path,
      argv !! 1 = Some path → fs path = Some raw_lines →
      _main fs argv = ([NoValidData], 1%Z).
Proof.
  intros Hrows.
  assert (get_most_common_schedule_by_genre raw_lines = Ok ∅) as Hempty.
  { unfold get_most_common_schedule_by_genre. by rewrite Hrows. }
  split; [done|]. intros fs argv path Hargv Hfile.
  unfold _main. rewrite Hargv, Hfile, Hempty.
  by rewrite bool_decide_eq_true_2.
Qed.

Lemma empty_input_returns_empty_mapping_witness :
  get_most_common_schedule_by_genre [] = Ok ∅
  ∧ ∀ fs argv path,
      argv !! 1 = Some path → fs path = Some [] →
      _main fs argv = ([NoValidData], 1%Z).
Proof. apply (empty_input_returns_empty_mapping []). reflexivity. Defined.

End empty_input.

(** ** Genre List Extractor *)

Section extractor.

(** The turns of the loop of the bracketed list, one lemma per branch. *)

Lemma bracket_scan_open ch tl genres cur qchar :
  is_quote ch = true →
  bracket_scan (String ch tl) genres cur false qchar
  = bracket_scan tl genres EmptyString true (Some ch).
Proof. intros Hq. cbn [bracket_scan negb andb]. by rewrite Hq. Qed.

Lemma bracket_scan_inside ch tl genres cur q :
  ch ≠ q →
  bracket_scan (String ch tl) genres cur true (Some q)
  = bracket_scan tl genres (Py.snoc cur ch) true (Some q).
Proof.
  intros Hne. cbn [bracket_scan negb andb].
  rewrite bool_decide_eq_false_2 by congruence. done.
Qed.

Lemma bracket_scan_close q tl genres cur :
  bracket_scan (String q tl) genres cur true (Some q)
  = bracket_scan (Py.lstrip_by is_sep tl) (genres ++ [cur]) cur false None.
Proof.
  cbn [bracket_scan negb andb]. rewrite bool_decide_eq_true_2 by done.
  induction tl as [|c tl IH]; [done|].
  cbn [Py.lstrip_by]. destruct (is_sep c); [exact IH | done].
Qed.

Lemma bracket_scan_token ch tl genres cur qchar :
  is_quote ch = false →
  bracket_scan (String ch tl) genres cur false qchar
  = let rest := String ch tl in
    match after_comma rest with
    | Some rest' =>
        bracket_scan rest' (add_token (before_comma rest) genres) cur false
          qchar
    | None => add_token (before_comma rest) genres
    end.
Proof.
  intros Hq. cbn [bracket_scan negb andb]. rewrite Hq. cbv zeta.
  cbn [after_comma before_comma].
  destruct (Py.char_eqb ch Py.comma); [done|].
  change (String ch (before_comma tl))
    with (Py.snoc EmptyString ch +:+ before_comma tl).
  generalize (Py.snoc EmptyString ch) as piece. clear ch Hq.
  induction tl as [|c tl IH]; intros piece; cbn [after_comma before_comma].
  - by rewrite append_nil_r.
  - destruct (Py.char_eqb c Py.comma).
    + by rewrite append_nil_r.
    + rewrite IH. by rewrite snoc_app.
Qed.


(** A complete quoted name is emitted as one genre and the loop resumes
    after the commas and spaces that follow it. *)
Lemma bracket_scan_name nm rest genres cur q :
  Py.count q nm = 0 →
  bracket_scan (nm +:+ String q rest) genres cur true (Some q)
  = bracket_scan (Py.lstrip_by is_sep rest) (genres ++ [cur +:+ nm])
      (cur +:+ nm) false None.
Proof.
  revert cur. induction nm as [|ch nm IH]; intros cur Hq.
  - rewrite append_nil_r. apply bracket_scan_close.
  - simpl in Hq. destruct (Py.char_eqb ch q) eqn:Hch; [lia|].
    apply char_eqb_neq in Hch. rewrite append_cons.
    rewrite bracket_scan_inside by done. rewrite IH by done.
    by rewrite snoc_app.
Qed.

Lemma lstrip_by_app p s t :
  Py.lstrip_by p s = EmptyString →
  Py.lstrip_by p (s +:+ t) = Py.lstrip_by p t.
Proof.
  induction s as [|c s IH]; [done|]. rewrite append_cons. simpl.
  destruct (p c); [exact IH | done].
Qed.

Lemma is_quote_not_sep c : is_quote c = true → is_sep c = false.
Proof.
  unfold is_quote. intros H. apply orb_true_iff in H as [H|H];
    apply char_eqb_eq in H; by subst c.
Qed.

Lemma bracket_scan_item it rest genres cur qchar :
  item_ok it →
  bracket_scan (item_text it +:+ rest) genres cur false qchar
  = bracket_scan (Py.lstrip_by is_sep rest) (genres ++ [name it]) (name it)
      false None.
Proof.
  intros (Hq & Hname & Hgap). unfold item_text.
  rewrite append_cons, bracket_scan_open by done.
  rewrite append_assoc, append_cons, bracket_scan_name by done.
  by rewrite lstrip_by_app.
Qed.

(** Trimming. *)

Lemma rstrip_by_keep p s c t :
  p c = false →
  Py.rstrip_by p (s +:+ String c t) = s +:+ String c (Py.rstrip_by p t).
Proof.
  intros Hc. induction s as [|d s IH].
  - change (EmptyString +:+ String c t) with (String c t).
    cbn [Py.rstrip_by]. rewrite Hc. by destruct (Py.rstrip_by p t).
  - rewrite append_cons. cbn [Py.rstrip_by]. rewrite IH.
    by destruct s.
Qed.

Lemma count_rstrip_by p c s :
  Py.count c s = 0 → Py.count c (Py.rstrip_by p s) = 0.
Proof.
  induction s as [|d s IH]; [done|]. cbn [Py.count Py.rstrip_by].
  intros Hs. assert (Py.count c s = 0) as Hs' by lia. specialize (IH Hs').
  destruct (Py.rstrip_by p s) as [|e r].
  - destruct (p d); [done|]. simpl. lia.
  - cbn [Py.count] in *. lia.
Qed.

Lemma endswith_snoc c s : Py.endswith c (s +:+ String c EmptyString) = true.
Proof.
  induction s as [|d s IH].
  - simpl. by apply char_eqb_eq.
  - rewrite append_cons. cbn [Py.endswith].
    destruct (s +:+ String c EmptyString) eqn:Hs; [by destruct s|done].
Qed.

Lemma drop_last_snoc c s : Py.drop_last (s +:+ String c EmptyString) = s.
Proof.
  induction s as [|d s IH]; [done|].
  rewrite append_cons. cbn [Py.drop_last]. rewrite IH.
  destruct (s +:+ String c EmptyString) eqn:Hs; [by destruct s|done].
Qed.

Lemma strip_bracketed inside : Py.strip (bracketed inside) = bracketed inside.
Proof.
  unfold Py.strip, Py.strip_by, bracketed. cbn [Py.lstrip_by].
  change (Py.is_space Py.lbracket) with false. cbv iota.
  rewrite <- append_cons. by rewrite rstrip_by_keep.
Qed.

Lemma strip_quoted s : Py.strip (quoted s) = quoted s.
Proof.
  unfold Py.strip, Py.strip_by, quoted. cbn [Py.lstrip_by].
  change (Py.is_space Py.dquote) with false. cbv iota.
  rewrite <- append_cons. by rewrite rstrip_by_keep.
Qed.

(** A bracketed field, bare or between the double quotes of its CSV field,
    goes through the loop of the bracketed list. *)
Lemma extract_genres_bracketed inside :
  extract_genres (bracketed inside)
  = bracket_scan (Py.strip inside) [] EmptyString false None
  ∧ extract_genres (quoted (bracketed inside))
    = bracket_scan (Py.strip inside) [] EmptyString false None.
Proof.
  assert (Py.endswith Py.rbracket (bracketed inside) = true) as Hend.
  { unfold bracketed. rewrite <- append_cons. apply endswith_snoc. }
  assert (Py.slice_1_m1 (bracketed inside) = inside) as Hslice.
  { unfold bracketed. cbn [Py.slice_1_m1]. apply drop_last_snoc. }
  split; unfold extract_genres.
  - rewrite strip_bracketed.
    change (Py.startswith Py.dquote (bracketed inside)) with false.
    cbn [andb].
    change (Py.startswith Py.lbracket (bracketed inside)) with true.
    by rewrite Hend, Hslice.
  - rewrite strip_quoted.
    change (Py.startswith Py.dquote (quoted (bracketed inside))) with true.
    assert (Py.endswith Py.dquote (quoted (bracketed inside)) = true) as ->.
    { unfold quoted. rewrite <- append_cons. apply endswith_snoc. }
    assert (Py.slice_1_m1 (quoted (bracketed inside)) = bracketed inside)
      as ->.
    { unfold quoted. cbn [Py.slice_1_m1]. apply drop_last_snoc. }
    cbn [andb].
    change (Py.startswith Py.lbracket (bracketed inside)) with true.
    by rewrite Hend, Hslice.
Qed.

Lemma is_quote_not_space c : is_quote c = true → Py.is_space c = false.
Proof.
  unfold is_quote. intros H. apply orb_true_iff in H as [H|H];
    apply char_eqb_eq in H; by subst c.
Qed.

End extractor.

(** ** Aggregator: column resolution *)

Section columns.

Variable test : string → bool.

Lemma next_key_dict_set d k v :
  next_key test (dict_set d k v)
  = match next_key test d with
    | Some k' => Some k'
    | None => if test k then Some k else None
    end.
Proof.
  unfold next_key. induction d as [|[k' v'] d IH]; simpl.
  { by destruct (test k). }
  destruct (decide (k' = k)) as [->|Hne].
  - rewrite bool_decide_eq_true_2 by done. simpl.
    destruct (test k) eqn:Hk; [done|].
    clear IH. induction d as [|[k2 v2] d IH]; simpl; [done|].
    by destruct (test k2).
  - rewrite bool_decide_eq_false_2 by done. simpl.
    by destruct (test k').
Qed.

Lemma next_idx_dict_set d k v :
  next_idx test (dict_set d k v)
  = match next_key test d with
    | Some k' => if bool_decide (k' = k) then Some v else next_idx test d
    | None => if test k then Some v else None
    end.
Proof.
  unfold next_key. induction d as [|[k' v'] d IH]; simpl.
  { by destruct (test k). }
  destruct (decide (k' = k)) as [->|Hne].
  - rewrite bool_decide_eq_true_2 by done. simpl.
    destruct (test k) eqn:Hk; [by rewrite bool_decide_eq_true_2|].
    clear IH. induction d as [|[k2 v2] d IH]; simpl; [done|].
    destruct (test k2) eqn:Hk2; [|done].
    rewrite bool_decide_eq_false_2; [done|]. congruence.
  - rewrite bool_decide_eq_false_2 by done. simpl.
    destruct (test k') eqn:Hk'; [|done].
    by rewrite bool_decide_eq_false_2.
Qed.

Lemma last_pos_from_elem start nm names :
  nm ∈ names → is_Some (last_pos_from start nm names).
Proof.
  revert start. induction names as [|n names IH]; intros start Hin.
  { by apply elem_of_nil in Hin. }
  simpl. destruct (last_pos_from (S start) nm names) eqn:Hlast; [done|].
  apply elem_of_cons in Hin as [->|Hin].
  - by rewrite bool_decide_eq_true_2.
  - destruct (IH (S start) Hin) as [j Hj]. congruence.
Qed.

Lemma last_pos_from_not_elem start nm names :
  nm ∉ names → last_pos_from start nm names = None.
Proof.
  revert start. induction names as [|n names IH]; intros start Hout; [done|].
  apply not_elem_of_cons in Hout as [Hne Hout]. simpl.
  rewrite IH by done. by rewrite bool_decide_eq_false_2.
Qed.

Lemma find_elem (names : list string) nm :
  List.find test names = Some nm → nm ∈ names.
Proof. intros H. apply find_some in H as [H _]. by apply list_elem_of_In. Qed.

(** The header mapping built on top of a dictionary [d]: the first key that
    passes the test is the first such key of [d], or else the first such
    name of the header; its value is the last position of that name in the
    header, or else its value in [d]. *)
Lemma next_idx_header_map_from d start header :
  next_idx test (header_map_from d start header)
  = match next_key test d with
    | Some k =>
        match last_pos_from start k (names_of header) with
        | Some j => Some j
        | None => next_idx test d
        end
    | None =>
        nm ← List.find test (names_of header);
        last_pos_from start nm (names_of header)
    end.
Proof.
  revert d start. induction header as [|h header IH]; intros d start.
  { simpl. destruct (next_key test d) eqn:Hkey; [done|].
    unfold next_key in Hkey. induction d as [|[k v] d IHd]; [done|].
    simpl in *. destruct (test k); [done | by apply IHd]. }
  cbn [header_map_from]. rewrite IH, next_key_dict_set, next_idx_dict_set.
  change (names_of (h :: header)) with (Py.strip h :: names_of header).
  set (n := Py.strip h). set (names := names_of header).
  destruct (next_key test d) as [k|] eqn:Hkey.
  - cbn [last_pos_from].
    destruct (last_pos_from (S start) k names); [done|].
    destruct (decide (n = k)) as [->|Hne].
    + by rewrite !bool_decide_eq_true_2.
    + rewrite !bool_decide_eq_false_2; [done | done | congruence].
  - cbn [List.find]. destruct (test n) eqn:Hn.
    + cbn [mbind option_bind last_pos_from].
      destruct (last_pos_from (S start) n names); [done|].
      by rewrite !bool_decide_eq_true_2.
    + destruct (List.find test names) as [nm|] eqn:Hfind; [|done].
      cbn [mbind option_bind last_pos_from].
      destruct (last_pos_from_elem (S start) nm names) as [j ->]; [|done].
      by apply find_elem.
Qed.

Lemma next_idx_header_map header :
  next_idx test (header_map header) = column_of test header.
Proof. unfold header_map, column_of. by rewrite next_idx_header_map_from. Qed.

(** With distinct trimmed names the column is the first position of a name
    that passes the test. *)
Lemma column_of_distinct header :
  NoDup (names_of header) →
  column_of test header = first_pos test (names_of header).
Proof.
  unfold column_of, first_pos, last_pos.
  generalize (names_of header) as names. generalize 0 as start.
  intros start names. revert start.
  induction names as [|n names IH]; intros start Hnodup; [done|].
  apply NoDup_cons in Hnodup as [Hfresh Hnodup].
  cbn [List.find first_pos_from]. destruct (test n) eqn:Hn.
  - cbn [mbind option_bind last_pos_from].
    rewrite last_pos_from_not_elem by done.
    by rewrite bool_decide_eq_true_2.
  - rewrite <- IH by done.
    destruct (List.find test names) as [nm|] eqn:Hfind; [|done].
    cbn [mbind option_bind last_pos_from].
    destruct (last_pos_from_elem (S start) nm names) as [j ->]; [|done].
    by apply find_elem.
Qed.

(** No column goes with a test exactly when no trimmed name passes it. *)
Lemma column_of_none header :
  column_of test header = None
  ↔ Forall (λ nm, test nm = false) (names_of header).
Proof.
  unfold column_of, last_pos.
  destruct (List.find test (names_of header)) as [nm|] eqn:Hfind.
  - cbn [mbind option_bind].
    destruct (last_pos_from_elem 0 nm (names_of header)) as [j Hj];
      [by apply find_elem|].
    rewrite Hj. split; [done|]. intros Hall.
    apply find_some in Hfind as [Hin Hnm].
    apply list_elem_of_In in Hin. rewrite Forall_forall in Hall.
    specialize (Hall nm Hin). congruence.
  - split; [|done]. intros _. apply Forall_forall. intros nm Hin.
    apply list_elem_of_In in Hin. by apply (find_none _ _ Hfind).
Qed.

End columns.

(** ** The claims on column resolution *)

Section column_claims.

(** C3 (as stated, refuted): with the header [Genres,Schedule (time),Genres]
    the genre column is not the position of the first header name that
    contains genre, which is 0: the header mapping keeps one position per
    name, the last one, and the genre column is 2. *)
Lemma genres_col_not_first_position :
  genres_col_of ["Genres"; "Schedule (time)"; "Genres"]
  ≠ first_pos is_genre_name
      (names_of ["Genres"; "Schedule (time)"; "Genres"]).
Proof. vm_compute. discriminate. Qed.

(** C3 (amended): the genre column is the position that the header mapping
    holds for the first trimmed header name, in header order, that contains
    genre whatever the case, which is the last position of that name in the
    header; the schedule column is the same for the first name that contains
    both schedule and time.  Without a genre column the genre error is
    raised, also when the schedule column is missing too; with a genre
    column and without a schedule column the schedule error is raised; the
    two messages differ. *)
Theorem resolve_columns_resolved header :
  genres_col_of header = column_of is_genre_name header
  ∧ schedule_col_of header = column_of is_schedule_name header
  ∧ resolve_columns header
    = match column_of is_genre_name header with
      | None => Raise (ValueError no_genres_msg)
      | Some gc =>
          match column_of is_schedule_name header with
          | None => Raise (ValueError no_schedule_msg)
          | Some sc => Ok (gc, sc)
          end
      end
  ∧ no_genres_msg ≠ no_schedule_msg.
Proof.
  assert (genres_col_of header = column_of is_genre_name header) as Hg
    by apply next_idx_header_map.
  assert (schedule_col_of header = column_of is_schedule_name header) as Hs
    by apply next_idx_header_map.
  split; [done|]. split; [done|]. split; [|done].
  unfold resolve_columns. by rewrite Hg, Hs.
Qed.

(** With distinct trimmed header names, the usual case, both columns are
    first positions, as the specification says. *)
Lemma resolve_columns_distinct header :
  NoDup (names_of header) →
  genres_col_of header = first_pos is_genre_name (names_of header)
  ∧ schedule_col_of header = first_pos is_schedule_name (names_of header).
Proof.
  intros Hnodup. unfold genres_col_of, schedule_col_of.
  rewrite !next_idx_header_map. by rewrite !column_of_distinct.
Qed.

End column_claims.

(** ** The scenarios of the specification *)

Section scenarios.

Example comedy_table :
  get_most_common_schedule_by_genre
    [ ln "Genres,Schedule (time)";
      ln (quoted "['Comedy']" +:+ ",8PM");
      ln (quoted "['Comedy']" +:+ ",9PM");
      ln (quoted "['Comedy']" +:+ ",8PM") ]
  = Ok {[ "Comedy" := "8PM" ]}.
Proof. vm_compute. reflexivity. Qed.

Example header_without_columns :
  get_most_common_schedule_by_genre [ln "Title,Rating"; ln "a,b"]
  = Raise (ValueError no_genres_msg)
  ∧ get_most_common_schedule_by_genre [ln "Genres,Rating"; ln "a,b"]
    = Raise (ValueError no_schedule_msg).
Proof. split; vm_compute; reflexivity. Qed.

Example short_and_blank_rows_skipped :
  get_most_common_schedule_by_genre
    [ ln "Title,Genres,Schedule (time)";
      ln "t1,Drama";
      ln "t2,Drama,  ";
      ln "t3,Drama,9PM" ]
  = Ok {[ "Drama" := "9PM" ]}.
Proof. vm_compute. reflexivity. Qed.

End scenarios.

(** * Further properties of the code *)

(** ** Trimming *)

Section trimming.

Variable p : ascii → bool.

Lemma lstrip_by_fixed s :
  Py.lstrip_by p (Py.lstrip_by p s) = Py.lstrip_by p s.
Proof.
  induction s as [|c s IH]; [done|]. simpl.
  destruct (p c) eqn:Hc; [done|]. simpl. by rewrite Hc.
Qed.

Lemma rstrip_by_fixed s :
  Py.rstrip_by p (Py.rstrip_by p s) = Py.rstrip_by p s.
Proof.
  induction s as [|c s IH]; [done|]. cbn [Py.rstrip_by].
  destruct (Py.rstrip_by p s) as [|d r] eqn:Hr.
  - destruct (p c) eqn:Hc; [done|]. cbn [Py.rstrip_by]. by rewrite Hc.
  - cbn [Py.rstrip_by] in *. by rewrite IH.
Qed.

(** Trimming on the right leaves a trimmed left end as it is. *)
Lemma lstrip_by_rstrip_by s :
  Py.lstrip_by p s = s → Py.lstrip_by p (Py.rstrip_by p s) = Py.rstrip_by p s.
Proof.
  destruct s as [|c s]; [done|]. cbn [Py.lstrip_by].
  destruct (p c) eqn:Hc.
  - intros Hs. exfalso. clear Hc.
    assert (∀ t, Py.len (Py.lstrip_by p t) ≤ Py.len t) as Hlen.
    { induction t as [|d t IH]; simpl; [done|]. destruct (p d); simpl; lia. }
    specialize (Hlen s). rewrite Hs in Hlen. simpl in Hlen. lia.
  - intros _. cbn [Py.rstrip_by].
    destruct (Py.rstrip_by p s); rewrite ?Hc; cbn [Py.lstrip_by];
      by rewrite Hc.
Qed.

Lemma strip_by_fixed s : Py.strip_by p (Py.strip_by p s) = Py.strip_by p s.
Proof.
  unfold Py.strip_by.
  rewrite (lstrip_by_rstrip_by (Py.lstrip_by p s)) by apply lstrip_by_fixed.
  apply rstrip_by_fixed.
Qed.

End trimming.

(** ** Record Splitter: field counts and records without quotes *)

Section splitter_more.

Lemma split_scan_length rest in_quotes cur fields :
  length fields ≤ length (split_scan rest in_quotes cur fields).1
  ∧ length (split_scan rest in_quotes cur fields).1
    ≤ length fields + Py.count Py.comma rest.
Proof.
  remember (Py.len rest) as n eqn:Hn.
  revert rest in_quotes cur fields Hn.
  induction n as [n IH] using lt_wf_ind.
  intros rest in_quotes cur fields ->.
  destruct rest as [|ch tl]; [simpl; lia|].
  assert (∀ q c f,
            length f ≤ length (split_scan tl q c f).1
            ∧ length (split_scan tl q c f).1
              ≤ length f + Py.count Py.comma tl) as IHtl.
  { intros q c f. apply (IH (Py.len tl)); [simpl; lia | done]. }
  cbn [split_scan Py.count]. destruct in_quotes.
  - destruct (Py.char_eqb ch Py.dquote) eqn:Hq.
    + apply char_eqb_eq in Hq as ->.
      change (Py.char_eqb Py.dquote Py.comma) with false. cbv iota.
      destruct tl as [|next tl']; [simpl; lia|].
      destruct (Py.char_eqb next Py.dquote) eqn:Hnext.
      * apply char_eqb_eq in Hnext as ->.
        destruct (IH (Py.len tl') ltac:(simpl; lia) tl' true
                    (Py.snoc cur Py.dquote) fields eq_refl) as [H1 H2].
        cbn [Py.count].
        change (Py.char_eqb Py.dquote Py.comma) with false. cbv iota. lia.
      * specialize (IHtl false cur fields). lia.
    + specialize (IHtl true (Py.snoc cur ch) fields).
      destruct (Py.char_eqb ch Py.comma); lia.
  - destruct (Py.char_eqb ch Py.dquote) eqn:Hq.
    + apply char_eqb_eq in Hq as ->.
      change (Py.char_eqb Py.dquote Py.comma) with false. cbv iota.
      specialize (IHtl true cur fields). lia.
    + destruct (Py.char_eqb ch Py.comma).
      * specialize (IHtl false EmptyString (fields ++ [cur])).
        rewrite length_app in IHtl. simpl in IHtl. lia.
      * specialize (IHtl false (Py.snoc cur ch) fields). lia.
Qed.

(** X1: a record always splits into at least one field and into at most one
    field more than it has commas. *)
Theorem split_csv_line_length line :
  1 ≤ length (split_csv_line line)
  ∧ length (split_csv_line line) ≤ Py.count Py.comma line + 1.
Proof.
  unfold split_csv_line.
  pose proof (split_scan_length line false EmptyString []) as [_ Hle].
  destruct (split_scan line false EmptyString []) as [fields cur].
  rewrite length_fmap, length_app. simpl in *. lia.
Qed.

Lemma split_comma_cons s : ∃ piece pieces, Py.split_comma s = piece :: pieces.
Proof.
  induction s as [|c s (piece & pieces & IH)]; simpl; [by eexists _, _|].
  destruct (Py.char_eqb c Py.comma); [by eexists _, _|].
  rewrite IH. by eexists _, _.
Qed.

Lemma split_comma_length s :
  length (Py.split_comma s) = Py.count Py.comma s + 1.
Proof.
  induction s as [|c s IH]; [done|]. simpl.
  destruct (Py.char_eqb c Py.comma); simpl; [by rewrite IH|].
  destruct (split_comma_cons s) as (piece & pieces & Hs).
  rewrite Hs in *. simpl in *. lia.
Qed.

Lemma split_comma_count c s :
  Py.count c s = 0 → Forall (λ piece, Py.count c piece = 0) (Py.split_comma s).
Proof.
  induction s as [|d s IH]; intros Hs; [by repeat constructor|].
  simpl in Hs. assert (Py.count c s = 0) as Hs' by lia.
  specialize (IH Hs'). simpl.
  destruct (Py.char_eqb d Py.comma); [by constructor|].
  destruct (split_comma_cons s) as (piece & pieces & Heq).
  rewrite Heq in *. apply Forall_cons in IH as [Hpiece Hpieces].
  constructor; [|done]. simpl. lia.
Qed.

Lemma split_scan_no_quote line cur fields :
  Py.count Py.dquote line = 0 →
  ∃ piece pieces,
    Py.split_comma line = piece :: pieces
    ∧ (split_scan line false cur fields).1
       ++ [(split_scan line false cur fields).2]
      = fields ++ (cur +:+ piece) :: pieces.
Proof.
  revert cur fields. induction line as [|ch line IH]; intros cur fields Hq.
  { exists EmptyString, []. split; [done|]. simpl. by rewrite append_nil_r. }
  simpl in Hq. destruct (Py.char_eqb ch Py.dquote) eqn:Hch; [lia|].
  cbn [split_scan Py.split_comma]. rewrite Hch.
  destruct (Py.char_eqb ch Py.comma).
  - destruct (IH EmptyString (fields ++ [cur]) Hq)
      as (piece & pieces & Hsplit & Hscan).
    exists EmptyString, (piece :: pieces). split; [by rewrite Hsplit|].
    rewrite Hscan, append_nil_r, <- (assoc_L (++)). done.
  - destruct (IH (Py.snoc cur ch) fields Hq)
      as (piece & pieces & Hsplit & Hscan).
    exists (String ch piece), pieces. split; [by rewrite Hsplit|].
    by rewrite Hscan, snoc_app.
Qed.

Lemma verbatim_no_quote f : Py.count Py.dquote f = 0 → verbatim f = false.
Proof.
  intros Hf. unfold verbatim. destruct f as [|c f]; [done|].
  simpl in *. destruct (Py.char_eqb c Py.dquote); [lia|].
  by rewrite andb_false_r.
Qed.

(** X2: on a record without any double quote the splitter is a split at
    the commas followed by a trim of every piece, so that the number of
    fields is the number of commas plus one. *)
Theorem split_csv_line_no_quote line :
  Py.count Py.dquote line = 0 →
  split_csv_line line = Py.strip <$> Py.split_comma line
  ∧ length (split_csv_line line) = Py.count Py.comma line + 1.
Proof.
  intros Hq.
  assert (split_csv_line line = Py.strip <$> Py.split_comma line) as Hsplit.
  { unfold split_csv_line.
    destruct (split_scan_no_quote line EmptyString [] Hq)
      as (piece & pieces & Hpieces & Hscan).
    destruct (split_scan line false EmptyString []) as [fields cur].
    simpl in Hscan. change (EmptyString +:+ piece) with piece in Hscan.
    rewrite Hscan, <- Hpieces.
    apply Forall_fmap_ext_1.
    eapply Forall_impl; [by apply split_comma_count|].
    intros f Hf. unfold post_process. by rewrite verbatim_no_quote. }
  split; [done|]. by rewrite Hsplit, length_fmap, split_comma_length.
Qed.

Lemma split_csv_line_no_quote_witness :
  split_csv_line " a, b c ,,d" = Py.strip <$> Py.split_comma " a, b c ,,d"
  ∧ length (split_csv_line " a, b c ,,d")
    = Py.count Py.comma " a, b c ,,d" + 1.
Proof. apply split_csv_line_no_quote. reflexivity. Defined.

(** What comes out of post-processing is not changed by it. *)
Lemma post_process_fixed f : post_process (post_process f) = post_process f.
Proof.
  unfold post_process. destruct (verbatim f) eqn:Hf.
  - by rewrite Hf.
  - destruct (verbatim (Py.strip f)); [done | apply strip_by_fixed].
Qed.

(** X3: every field the splitter returns is final: it begins and ends with
    a double quote of its own, or it has no whitespace left to trim.  The
    later [strip] calls on a header name or a schedule cell change such a
    field only in the first case. *)
Theorem split_csv_line_fields_final line f :
  f ∈ split_csv_line line → verbatim f = true ∨ Py.strip f = f.
Proof.
  unfold split_csv_line.
  destruct (split_scan line false EmptyString []) as [fields cur].
  intros Hf. apply list_elem_of_fmap in Hf as (raw & -> & _).
  unfold post_process. destruct (verbatim raw) eqn:Hraw; [by left|].
  right. apply strip_by_fixed.
Qed.

Lemma split_csv_line_fields_final_witness :
  verbatim "b c" = true ∨ Py.strip "b c" = "b c".
Proof.
  apply (split_csv_line_fields_final " a, b c ,,d").
  vm_compute. apply elem_of_cons. right. apply elem_of_cons. by left.
Defined.

(** X4: a record written from fields whose contents have no whitespace at
    either end (bare fields without comma or double quote, quoted fields
    with any content, escaped) splits back into exactly those contents. *)
Theorem split_csv_line_round_trip (fs : list field) :
  fs ≠ [] → Forall well_formed fs →
  Forall (λ f, Py.strip (content f) = content f) fs →
  split_csv_line (join Py.comma (render <$> fs)) = content <$> fs.
Proof.
  intros Hne Hwf Hclean. rewrite split_csv_line_fields by done.
  apply Forall_fmap_ext_1. eapply Forall_impl; [exact Hclean|].
  intros f Hf. simpl in Hf. unfold post_process.
  by destruct (verbatim (content f)).
Qed.

Lemma split_csv_line_round_trip_witness :
  split_csv_line
    (join Py.comma
       (render <$> [Plain "a"; Quoted ("b,c" +:+ quoted "d"); Plain ""]))
  = content <$> [Plain "a"; Quoted ("b,c" +:+ quoted "d"); Plain ""].
Proof.
  apply split_csv_line_round_trip.
  - done.
  - repeat apply Forall_cons_2; [| | |apply Forall_nil_2]; done.
  - repeat apply Forall_cons_2; [| | |apply Forall_nil_2]; reflexivity.
Defined.

End splitter_more.

(** ** Tabular Row Reader: rows and lines *)

Section reader_more.

Lemma iter_csv_rows_from_app buffer raw_lines more :
  ∃ later,
    iter_csv_rows_from buffer (raw_lines ++ more)
    = iter_csv_rows_from buffer raw_lines ++ later.
Proof.
  revert buffer. induction raw_lines as [|raw_line raw_lines IH];
    intros buffer.
  { by eexists. }
  change ((raw_line :: raw_lines) ++ more)
    with (raw_line :: (raw_lines ++ more)).
  rewrite !iter_csv_rows_from_cons. cbv zeta.
  destruct (bool_decide (complete _)).
  - destruct (IH EmptyString) as [later ->]. by exists later.
  - apply IH.
Qed.

(** X5: the rows yielded for some raw lines are yielded, first and
    unchanged, whatever lines follow: a row never depends on a later line. *)
Theorem iter_csv_rows_stable raw_lines more :
  ∃ later,
    iter_csv_rows (raw_lines ++ more) = iter_csv_rows raw_lines ++ later.
Proof. apply iter_csv_rows_from_app. Qed.

Lemma iter_csv_rows_from_bounds buffer raw_lines :
  length (iter_csv_rows_from buffer raw_lines) ≤ length raw_lines
  ∧ Forall (λ row, row ≠ []) (iter_csv_rows_from buffer raw_lines).
Proof.
  revert buffer. induction raw_lines as [|raw_line raw_lines IH];
    intros buffer.
  { split; [done | constructor]. }
  rewrite iter_csv_rows_from_cons. cbv zeta.
  destruct (bool_decide (complete _)).
  - destruct (IH EmptyString) as [Hlen Hrows]. split; [simpl; lia|].
    constructor; [|done].
    intros Hnil. unfold split_csv_line in Hnil.
    destruct (split_scan _ false EmptyString []) as [fields cur].
    apply fmap_nil_inv in Hnil. by destruct fields.
  - destruct (IH (if Py.truthy buffer
                  then buffer +:+ String Py.newline
                                    (Py.rstrip_newline raw_line)
                  else Py.rstrip_newline raw_line)) as [Hlen Hrows].
    split; [simpl; lia | done].
Qed.

(** X6: the reader yields at most one row per raw line, and every row it
    yields has at least one field. *)
Theorem iter_csv_rows_bounds raw_lines :
  length (iter_csv_rows raw_lines) ≤ length raw_lines
  ∧ Forall (λ row, row ≠ []) (iter_csv_rows raw_lines).
Proof. apply iter_csv_rows_from_bounds. Qed.

(** X7: when every raw line, without its final newline, holds an even
    number of double quotes (none, for instance), the reader yields one row
    per line, the split of that line. *)
Theorem iter_csv_rows_line_by_line raw_lines :
  Forall (λ raw_line, complete (Py.rstrip_newline raw_line)) raw_lines →
  iter_csv_rows raw_lines
  = (λ raw_line, split_csv_line (Py.rstrip_newline raw_line)) <$> raw_lines.
Proof.
  unfold iter_csv_rows. induction 1 as [|raw_line raw_lines Hline _ IH];
    [done|].
  rewrite iter_csv_rows_from_cons. cbv zeta. cbn [Py.truthy].
  rewrite bool_decide_eq_true_2 by done. by rewrite IH.
Qed.

Lemma iter_csv_rows_line_by_line_witness :
  iter_csv_rows [ln "a,b"; ln (quoted "c,d" +:+ ",e"); "f"]
  = (λ raw_line, split_csv_line (Py.rstrip_newline raw_line))
      <$> [ln "a,b"; ln (quoted "c,d" +:+ ",e"); "f"].
Proof.
  apply iter_csv_rows_line_by_line.
  repeat apply Forall_cons_2; [| | |apply Forall_nil_2]; reflexivity.
Defined.

(** Records on several lines. *)

Lemma join_app sep (a b : list string) :
  a ≠ [] → b ≠ [] →
  join sep (a ++ b) = join sep a +:+ String sep (join sep b).
Proof.
  intros Ha Hb. induction a as [|x [|y a] IH]; [done| |].
  - destruct b; [done|]. reflexivity.
  - change (join sep ((x :: y :: a) ++ b))
      with (x +:+ String sep (join sep ((y :: a) ++ b))).
    rewrite IH by done.
    change (join sep (x :: y :: a))
      with (x +:+ String sep (join sep (y :: a))).
    by rewrite append_assoc.
Qed.

Lemma record_of_app (a b : list string) :
  a ≠ [] → b ≠ [] →
  record_of (a ++ b) = record_of a +:+ String Py.newline (record_of b).
Proof.
  intros Ha Hb. unfold record_of. rewrite fmap_app.
  apply join_app; by destruct a, b.
Qed.

(** Before a guarded newline the number of double quotes is odd. *)
Lemma guarded_newline inside before rest :
  guarded inside (before +:+ String Py.newline rest) = true →
  Nat.odd (Py.count Py.dquote before) = negb inside.
Proof.
  revert inside. induction before as [|c before IH]; intros inside.
  - change (EmptyString +:+ String Py.newline rest)
      with (String Py.newline rest).
    cbn [guarded]. change (Py.char_eqb Py.newline Py.dquote) with false.
    change (Py.char_eqb Py.newline Py.newline) with true. cbv iota.
    intros H. apply andb_true_iff in H as [-> _]. done.
  - rewrite append_cons. cbn [guarded Py.count].
    destruct (Py.char_eqb c Py.dquote).
    + intros H. apply IH in H. rewrite Nat.odd_succ, <- Nat.negb_odd, H.
      by destruct inside.
    + destruct (Py.char_eqb c Py.newline).
      * intros H. apply andb_true_iff in H as [_ H]. by apply IH.
      * apply IH.
Qed.

Lemma odd_not_complete text :
  Nat.odd (Py.count Py.dquote text) = true → ¬ complete text.
Proof.
  unfold complete. intros Hodd Heven.
  apply Nat.odd_spec in Hodd as [m Hm]. rewrite Hm in Heven.
  rewrite Nat.add_comm, Nat.mul_comm, Nat.Div0.mod_add in Heven. done.
Qed.

Lemma guarded_closes group :
  group ≠ [] → complete (record_of group) →
  guarded false (record_of group) = true → closes group.
Proof.
  intros Hne Hdone Hguard. split; [done|]. split; [|done].
  intros k Hk. apply odd_not_complete.
  rewrite <- (take_drop k group) in Hguard.
  rewrite record_of_app in Hguard.
  - by apply guarded_newline in Hguard.
  - intros Hnil. apply (f_equal length) in Hnil.
    rewrite length_take in Hnil. simpl in Hnil. lia.
  - intros Hnil. apply (f_equal length) in Hnil.
    rewrite length_drop in Hnil. simpl in Hnil. lia.
Qed.

(** X8: raw lines in consecutive groups, each accumulating to a text with
    an even number of double quotes in which every newline lies inside a
    quoted field, are read as one row per group, the split of that text: a
    record with line breaks inside its quoted fields is put together again. *)
Theorem iter_csv_rows_multiline (groups : list (list string)) :
  Forall (λ group, group ≠ [] ∧ complete (record_of group)
                   ∧ guarded false (record_of group) = true) groups →
  iter_csv_rows (concat groups)
  = (λ group, split_csv_line (record_of group)) <$> groups.
Proof.
  unfold iter_csv_rows.
  induction 1 as [|group groups (Hne & Hdone & Hguard) _ IH]; [done|].
  cbn [concat]. rewrite iter_csv_rows_from_closes by by apply guarded_closes.
  by rewrite IH.
Qed.

Lemma iter_csv_rows_multiline_witness :
  iter_csv_rows
    (concat [[ln "a,b"];
             [ln ("c," +:+ String Py.dquote "d");
              ln "e,";
              ln ("f" +:+ String Py.dquote ",g")]])
  = (λ group, split_csv_line (record_of group))
      <$> [[ln "a,b"];
           [ln ("c," +:+ String Py.dquote "d");
            ln "e,";
            ln ("f" +:+ String Py.dquote ",g")]].
Proof.
  apply iter_csv_rows_multiline.
  repeat apply Forall_cons_2; [| |apply Forall_nil_2];
    (split; [done | split; reflexivity]).
Defined.

(** Written records are complete and guarded. *)

Lemma count_escape c : Py.count Py.dquote (escape c) = 2 * Py.count Py.dquote c.
Proof.
  induction c as [|ch c IH]; [done|]. cbn [escape Py.count].
  destruct (Py.char_eqb ch Py.dquote) eqn:Hch.
  - cbn [Py.count]. change (Py.char_eqb Py.dquote Py.dquote) with true.
    cbv iota. lia.
  - cbn [Py.count]. rewrite Hch. lia.
Qed.

Lemma count_render f :
  well_formed f → ∃ n, Py.count Py.dquote (render f) = 2 * n.
Proof.
  destruct f as [s|c]; simpl.
  - intros [_ ->]. by exists 0.
  - intros _. exists (1 + Py.count Py.dquote c).
    change (Py.char_eqb Py.dquote Py.dquote) with true. cbv iota.
    rewrite count_app, count_escape. simpl. lia.
Qed.

Lemma complete_record (fs : list field) :
  Forall well_formed fs → complete (join Py.comma (render <$> fs)).
Proof.
  unfold complete. intros Hfs.
  assert (∃ n, Py.count Py.dquote (join Py.comma (render <$> fs)) = 2 * n)
    as [n ->].
  { induction Hfs as [|f fs Hf Hfs [n IH]]; [by exists 0|].
    destruct (count_render f Hf) as [m Hm].
    destruct fs as [|g fs]; [by exists m|].
    change (join Py.comma (render <$> f :: g :: fs))
      with (render f +:+ String Py.comma (join Py.comma (render <$> g :: fs))).
    rewrite count_app. cbn [Py.count].
    change (Py.char_eqb Py.comma Py.dquote) with false. cbv iota.
    rewrite Hm, IH. exists (m + n). lia. }
  by rewrite Nat.mul_comm, Nat.Div0.mod_mul.
Qed.

Lemma guarded_escape c rest :
  guarded true (escape c +:+ rest) = guarded true rest.
Proof.
  induction c as [|ch c IH]; [done|]. cbn [escape].
  destruct (Py.char_eqb ch Py.dquote) eqn:Hch.
  - rewrite !append_cons. cbn [guarded].
    change (Py.char_eqb Py.dquote Py.dquote) with true. cbv iota.
    exact IH.
  - rewrite append_cons. cbn [guarded]. rewrite Hch.
    destruct (Py.char_eqb ch Py.newline); [|done]. by rewrite IH.
Qed.

Lemma guarded_bare inside s rest :
  Py.count Py.dquote s = 0 → Py.count Py.newline s = 0 →
  guarded inside (s +:+ rest) = guarded inside rest.
Proof.
  induction s as [|ch s IH]; [done|]. cbn [Py.count]. intros Hq Hn.
  rewrite append_cons. cbn [guarded].
  destruct (Py.char_eqb ch Py.dquote); [lia|].
  destruct (Py.char_eqb ch Py.newline); [lia|].
  apply IH; lia.
Qed.

Lemma guarded_render f rest :
  line_safe f → guarded false (render f +:+ rest) = guarded false rest.
Proof.
  destruct f as [s|c]; unfold line_safe; cbn [render well_formed].
  - intros [[_ Hq] Hn]. by apply guarded_bare.
  - intros _. unfold quoted. rewrite append_cons. cbn [guarded].
    change (Py.char_eqb Py.dquote Py.dquote) with true. cbv iota.
    rewrite append_assoc, guarded_escape, append_cons.
    cbn [guarded negb].
    change (Py.char_eqb Py.dquote Py.dquote) with true. done.
Qed.

Lemma guarded_record (fs : list field) :
  Forall line_safe fs → guarded false (join Py.comma (render <$> fs)) = true.
Proof.
  induction 1 as [|f fs Hf Hfs IH]; [done|].
  destruct fs as [|g fs].
  - pose proof (guarded_render f EmptyString Hf) as H.
    rewrite append_nil_r in H. exact H.
  - change (join Py.comma (render <$> f :: g :: fs))
      with (render f +:+ String Py.comma (join Py.comma (render <$> g :: fs))).
    rewrite guarded_render by done. exact IH.
Qed.

(** X9: a table written one record after another, every record being the
    fields of a row joined by commas (a bare field without comma, double
    quote or newline; a quoted field with any content, line breaks included,
    escaped), and every record being cut into raw lines at some of its
    newlines, is read back row by row and field by field: each field comes
    back as its post-processed content. *)
Theorem iter_csv_rows_table (table : list (list field))
    (groups : list (list string)) :
  Forall2 (λ (fs : list field) (group : list string),
             group ≠ []
             ∧ record_of group = join Py.comma (render <$> fs))
    table groups →
  Forall (λ fs, fs ≠ [] ∧ Forall line_safe fs) table →
  iter_csv_rows (concat groups)
  = (λ fs : list field, (λ f, post_process (content f)) <$> fs) <$> table.
Proof.
  unfold iter_csv_rows.
  induction 1 as [|fs group table groups [Hne Htext] _ IH]; intros Htable;
    [done|].
  apply Forall_cons in Htable as [[Hfs Hsafe] Htable].
  assert (Forall well_formed fs) as Hwf.
  { eapply Forall_impl; [exact Hsafe|]. by intros f [Hf _]. }
  cbn [concat]. rewrite iter_csv_rows_from_closes.
  - rewrite Htext, split_csv_line_fields by done. by rewrite IH.
  - apply guarded_closes; [done | |]; rewrite Htext.
    + by apply complete_record.
    + by apply guarded_record.
Qed.

Lemma iter_csv_rows_table_witness :
  iter_csv_rows
    (concat [[ln "Genres,Schedule (time)"];
             [ln (String Py.dquote "['Comedy',");
              ln (" 'Drama']" +:+ String Py.dquote ",8PM")]])
  = (λ fs : list field, (λ f, post_process (content f)) <$> fs)
      <$> [[Plain "Genres"; Plain "Schedule (time)"];
           [Quoted ("['Comedy'," +:+ String Py.newline " 'Drama']");
            Plain "8PM"]].
Proof.
  apply iter_csv_rows_table.
  - repeat apply Forall2_cons_2; [| |apply Forall2_nil_2];
      (split; [done | reflexivity]).
  - repeat apply Forall_cons_2; [| |apply Forall_nil_2];
      (split; [done|]);
      repeat apply Forall_cons_2; try apply Forall_nil_2;
      (split; [done | reflexivity]) || (split; [split; reflexivity | reflexivity]).
Defined.

End reader_more.

(** ** Genre List Extractor: the two formats *)

Section extractor_more.

(** X10: a genre field that is empty or holds only whitespace gives no
    genre. *)
Theorem extract_genres_blank genre_field :
  Py.strip genre_field = EmptyString → extract_genres genre_field = [].
Proof. intros Hblank. unfold extract_genres. by rewrite Hblank. Qed.

Lemma extract_genres_blank_witness : extract_genres "   " = [].
Proof. apply extract_genres_blank. reflexivity. Defined.

Lemma items_text_app its its' :
  items_text (its ++ its') = items_text its +:+ items_text its'.
Proof.
  induction its as [|it its IH]; [done|].
  cbn [app items_text]. by rewrite IH, append_assoc.
Qed.

Lemma items_text_head its :
  Forall item_ok its →
  items_text its = EmptyString
  ∨ ∃ q rest, is_quote q = true ∧ items_text its = String q rest.
Proof.
  intros [|it its' (Hq & _) _]; [by left|]. right.
  exists (opener it). eexists. split; [done|].
  cbn [items_text]. unfold item_text. by rewrite append_cons.
Qed.

Lemma lstrip_by_items its :
  Forall item_ok its →
  Py.lstrip_by is_sep (items_text its) = items_text its
  ∧ Py.lstrip_by Py.is_space (items_text its) = items_text its.
Proof.
  intros Hits. destruct (items_text_head its Hits) as [->|(q & rest & Hq & ->)];
    [done|].
  cbn [Py.lstrip_by].
  by rewrite (is_quote_not_sep q Hq), (is_quote_not_space q Hq).
Qed.

(** A list of complete quoted names goes through the loop name by name. *)
Lemma bracket_scan_complete its genres cur qchar :
  Forall item_ok its →
  bracket_scan (items_text its) genres cur false qchar
  = genres ++ (name <$> its).
Proof.
  intros Hits. revert genres cur qchar.
  induction Hits as [|it its Hit Hits IH]; intros genres cur qchar.
  - cbn [items_text fmap list_fmap bracket_scan].
    by rewrite (right_id_L [] (++)).
  - cbn [items_text]. rewrite bracket_scan_item by done.
    destruct (lstrip_by_items its Hits) as [-> _].
    rewrite IH. by rewrite <- (assoc_L (++)).
Qed.

Lemma lstrip_by_rstrip_by_all (p q : ascii → bool) s :
  Py.lstrip_by p s = EmptyString →
  Py.lstrip_by p (Py.rstrip_by q s) = EmptyString.
Proof.
  induction s as [|c s IH]; [done|]. cbn [Py.lstrip_by Py.rstrip_by].
  destruct (p c) eqn:Hc; [|done]. intros Hs. specialize (IH Hs).
  destruct (Py.rstrip_by q s) as [|d r].
  - destruct (q c); [done|]. cbn [Py.lstrip_by]. by rewrite Hc.
  - cbn [Py.lstrip_by] in *. by rewrite Hc.
Qed.

(** Trimming a list of complete quoted names trims the gap after the last
    name only. *)
Lemma strip_items_text its :
  Forall item_ok its →
  ∃ its',
    Forall item_ok its' ∧ name <$> its' = name <$> its
    ∧ Py.strip (items_text its) = items_text its'.
Proof.
  intros Hits. unfold Py.strip, Py.strip_by.
  destruct (lstrip_by_items its Hits) as [_ ->].
  destruct its as [|it its _] using rev_ind; [by exists []|].
  apply Forall_app in Hits as [Hits Hit].
  apply Forall_cons in Hit as [(Hq & Hname & Hgap) _].
  exists (its ++ [{| opener := opener it; name := name it;
                     gap := Py.rstrip_by Py.is_space (gap it) |}]).
  split; [|split].
  - apply Forall_app. split; [done|]. repeat constructor; [done..|].
    by apply lstrip_by_rstrip_by_all.
  - by rewrite !fmap_app.
  - rewrite !items_text_app. cbn [items_text]. unfold item_text.
    cbn [opener name gap]. rewrite !append_nil_r.
    rewrite rstrip_by_keep by by apply is_quote_not_space.
    by rewrite rstrip_by_keep by by apply is_quote_not_space.
Qed.

(** X11: a bracketed list of complete quoted names (each between two single
    or two double quotes, without that quote character inside, followed by
    commas and spaces), bare or between the double quotes of its CSV field,
    gives exactly the names, in order and with their repetitions. *)
Theorem extract_genres_list its :
  Forall item_ok its →
  extract_genres (bracketed (items_text its)) = name <$> its
  ∧ extract_genres (quoted (bracketed (items_text its))) = name <$> its.
Proof.
  intros Hits.
  destruct (extract_genres_bracketed (items_text its)) as [-> ->].
  destruct (strip_items_text its Hits) as (its' & Hits' & <- & ->).
  by rewrite bracket_scan_complete.
Qed.

Lemma extract_genres_list_witness :
  extract_genres ("['Action', " +:+ quoted "Sci-Fi" +:+ ",'Action' ]")
  = ["Action"; "Sci-Fi"; "Action"]
  ∧ extract_genres
      (quoted ("['Action', " +:+ quoted "Sci-Fi" +:+ ",'Action' ]"))
    = ["Action"; "Sci-Fi"; "Action"].
Proof.
  apply (extract_genres_list
           [ {| opener := Py.squote; name := "Action"; gap := ", " |};
             {| opener := Py.dquote; name := "Sci-Fi"; gap := "," |};
             {| opener := Py.squote; name := "Action"; gap := " " |} ]).
  repeat apply Forall_cons_2; [| | |apply Forall_nil_2];
    repeat split; reflexivity.
Defined.

(** The plain comma-separated format. *)

Lemma len_lstrip_by p s : Py.len (Py.lstrip_by p s) ≤ Py.len s.
Proof.
  induction s as [|c s IH]; [done|]. cbn [Py.lstrip_by].
  destruct (p c); simpl; lia.
Qed.

Lemma len_rstrip_by p s : Py.len (Py.rstrip_by p s) ≤ Py.len s.
Proof.
  induction s as [|c s IH]; [done|]. cbn [Py.rstrip_by].
  destruct (Py.rstrip_by p s); [destruct (p c)|]; simpl in *; lia.
Qed.

Lemma lstrip_by_len p s :
  Py.len (Py.lstrip_by p s) = Py.len s → Py.lstrip_by p s = s.
Proof.
  destruct s as [|c s]; [done|]. cbn [Py.lstrip_by].
  destruct (p c); [|done].
  pose proof (len_lstrip_by p s). simpl. lia.
Qed.

Lemma strip_by_fixed_ends p s :
  Py.strip_by p s = s → Py.lstrip_by p s = s ∧ Py.rstrip_by p s = s.
Proof.
  unfold Py.strip_by. intros Hs.
  assert (Py.lstrip_by p s = s) as Hl.
  { apply lstrip_by_len.
    pose proof (len_lstrip_by p s).
    pose proof (len_rstrip_by p (Py.lstrip_by p s)) as Hr.
    rewrite Hs in Hr. lia. }
  split; [done|]. by rewrite Hl in Hs.
Qed.

Lemma lstrip_by_head p s :
  Py.lstrip_by p s = s → s ≠ EmptyString →
  ∃ c tl, s = String c tl ∧ p c = false.
Proof.
  destruct s as [|c s]; [done|]. cbn [Py.lstrip_by]. intros Hs _.
  destruct (p c) eqn:Hc; [|by eexists _, _].
  pose proof (len_lstrip_by p s) as Hlen. rewrite Hs in Hlen.
  simpl in Hlen. lia.
Qed.

Lemma rstrip_by_app p x b :
  Py.rstrip_by p b = b → b ≠ EmptyString →
  Py.rstrip_by p (x +:+ b) = x +:+ b.
Proof.
  intros Hb Hne. induction x as [|c x IH]; [done|].
  rewrite append_cons. cbn [Py.rstrip_by]. rewrite IH.
  destruct (x +:+ b) eqn:Hx; [|done]. by destruct x, b.
Qed.

Lemma split_comma_plain piece :
  Py.count Py.comma piece = 0 → Py.split_comma piece = [piece].
Proof.
  induction piece as [|c piece IH]; [done|]. simpl.
  destruct (Py.char_eqb c Py.comma); [lia|]. intros H.
  by rewrite IH.
Qed.

Lemma split_comma_app piece rest :
  Py.count Py.comma piece = 0 →
  Py.split_comma (piece +:+ String Py.comma rest)
  = piece :: Py.split_comma rest.
Proof.
  induction piece as [|c piece IH]; [done|]. cbn [Py.count].
  rewrite append_cons. cbn [Py.split_comma].
  destruct (Py.char_eqb c Py.comma); [lia|]. intros H.
  by rewrite IH.
Qed.

Lemma split_comma_join pieces :
  pieces ≠ [] → Forall (λ piece, Py.count Py.comma piece = 0) pieces →
  Py.split_comma (join Py.comma pieces) = pieces.
Proof.
  intros Hne Hpieces.
  induction Hpieces as [|piece pieces Hpiece Hpieces IH]; [done|].
  destruct pieces as [|piece' pieces].
  - by apply split_comma_plain.
  - change (join Py.comma (piece :: piece' :: pieces))
      with (piece +:+ String Py.comma (join Py.comma (piece' :: pieces))).
    rewrite split_comma_app by done. by rewrite IH.
Qed.

(** X12: the text [', '.join(names)] of clean names (not empty, without a
    comma, without whitespace or a quote character at either end), whose
    first name does not begin with an opening bracket, gives back exactly
    the names, in order and with their repetitions. *)
Theorem extract_genres_plain first others :
  Forall clean_name (first :: others) →
  Py.startswith Py.lbracket first = false →
  extract_genres (join_comma_space (first :: others)) = first :: others.
Proof.
  intros Hclean Hbracket.
  apply Forall_cons in Hclean as [(Hne & Hcomma & Hstrip & Hquote) Hothers].
  cbn [join_comma_space].
  set (pieces := first :: (String " " <$> others)).
  set (genre_field := join Py.comma pieces).
  destruct (strip_by_fixed_ends _ _ Hstrip) as [Hl Hr].
  destruct (strip_by_fixed_ends _ _ Hquote) as [Hlq _].
  destruct (lstrip_by_head _ _ Hl Hne) as (c & tl & Hfirst & Hc).
  destruct (lstrip_by_head _ _ Hlq Hne) as (c' & tl' & Hfirst' & Hc').
  rewrite Hfirst in Hfirst'. injection Hfirst' as <- <-.
  assert (∃ rest, genre_field = String c rest) as [rest Hfield].
  { unfold genre_field, pieces. rewrite Hfirst.
    destruct others; [by eexists|].
    cbn [fmap list_fmap join]. rewrite append_cons. by eexists. }
  assert (Py.strip genre_field = genre_field) as Hfixed.
  { unfold Py.strip, Py.strip_by.
    assert (Py.lstrip_by Py.is_space genre_field = genre_field) as ->.
    { rewrite Hfield. cbn [Py.lstrip_by]. by rewrite Hc. }
    unfold genre_field, pieces.
    destruct others as [|last others _] using rev_ind; [done|].
    apply Forall_app in Hothers as [_ Hlast].
    apply Forall_cons in Hlast as [(Hne' & _ & Hstrip' & _) _].
    destruct (strip_by_fixed_ends _ _ Hstrip') as [_ Hr'].
    rewrite fmap_app. cbn [fmap list_fmap].
    change (first :: (String " " <$> others) ++ [String " " last])
      with ((first :: (String " " <$> others)) ++ [String " " last]).
    rewrite join_snoc by done.
    apply rstrip_by_app; [|done].
    cbn [Py.rstrip_by]. rewrite Hr'. by destruct last. }
  unfold extract_genres. cbv zeta. rewrite Hfixed, Hfield.
  assert (Py.startswith Py.dquote (String c rest) = false) as ->.
  { cbn [Py.startswith]. simpl in Hc'.
    by apply orb_false_iff in Hc' as [-> _]. }
  cbn [andb].
  assert (Py.startswith Py.lbracket (String c rest) = false) as ->.
  { rewrite Hfirst in Hbracket. exact Hbracket. }
  cbn [andb]. rewrite <- Hfield. unfold genre_field.
  rewrite split_comma_join.
  - unfold pieces. rewrite filter_cons_True.
    2:{ rewrite Hstrip. by destruct first. }
    cbn [fmap list_fmap]. rewrite Hstrip, Hquote. f_equal.
    clear -Hothers. induction Hothers as [|nm others Hnm _ IH]; [done|].
    destruct Hnm as (Hne & _ & Hstrip & Hquote).
    cbn [fmap list_fmap]. rewrite filter_cons_True.
    2:{ change (Py.strip (String " " nm)) with (Py.strip nm).
        rewrite Hstrip. by destruct nm. }
    cbn [fmap list_fmap].
    change (Py.strip (String " " nm)) with (Py.strip nm).
    by rewrite Hstrip, Hquote, IH.
  - done.
  - constructor; [done|]. apply Forall_fmap.
    eapply Forall_impl; [exact Hothers|].
    intros nm (_ & Hnm & _). simpl. exact Hnm.
Qed.

Lemma extract_genres_plain_witness :
  extract_genres (join_comma_space ["Action"; "Sci-Fi"; "Action"])
  = ["Action"; "Sci-Fi"; "Action"].
Proof.
  apply extract_genres_plain.
  - repeat apply Forall_cons_2; [| | |apply Forall_nil_2];
      (split; [done | repeat split; reflexivity]).
  - reflexivity.
Defined.

End extractor_more.

(** ** Genre List Extractor: bracketed lists without quotes *)

Section extractor_unquoted.

Lemma after_comma_len rest rest' :
  after_comma rest = Some rest' → Py.len rest' < Py.len rest.
Proof.
  induction rest as [|c rest IH]; [done|]. cbn [after_comma Py.len].
  destruct (Py.char_eqb c Py.comma).
  - intros [= ->]. lia.
  - intros H. apply IH in H. lia.
Qed.

Lemma split_comma_before_after rest :
  Py.split_comma rest
  = before_comma rest
    :: match after_comma rest with
       | Some rest' => Py.split_comma rest'
       | None => []
       end.
Proof.
  induction rest as [|c rest IH]; [done|].
  cbn [Py.split_comma before_comma after_comma].
  destruct (Py.char_eqb c Py.comma); [done|]. by rewrite IH.
Qed.

Lemma count_before_comma c rest :
  Py.count c rest = 0 → Py.count c (before_comma rest) = 0.
Proof.
  induction rest as [|d rest IH]; [done|]. cbn [Py.count before_comma].
  intros H. destruct (Py.char_eqb d Py.comma); [done|].
  cbn [Py.count]. rewrite IH; lia.
Qed.

Lemma count_after_comma c rest rest' :
  Py.count c rest = 0 → after_comma rest = Some rest' → Py.count c rest' = 0.
Proof.
  induction rest as [|d rest IH]; [done|]. cbn [Py.count after_comma].
  intros H. destruct (Py.char_eqb d Py.comma).
  - intros [= <-]. lia.
  - apply IH. lia.
Qed.

Lemma count_lstrip_by p c s :
  Py.count c s = 0 → Py.count c (Py.lstrip_by p s) = 0.
Proof.
  induction s as [|d s IH]; [done|]. cbn [Py.count Py.lstrip_by].
  intros H. destruct (p d); [apply IH; lia|]. cbn [Py.count]. lia.
Qed.

(** A text without quote characters loses nothing to the second [strip]. *)
Lemma strip_chars_no_quote s :
  Py.count Py.dquote s = 0 → Py.count Py.squote s = 0 →
  Py.strip_chars quote_chars s = s.
Proof.
  intros Hd Hs. unfold Py.strip_chars, Py.strip_by.
  assert (∀ t, Py.count Py.dquote t = 0 → Py.count Py.squote t = 0 →
               Py.lstrip_by (λ c, Py.char_in c quote_chars) t = t
               ∧ Py.rstrip_by (λ c, Py.char_in c quote_chars) t = t) as H.
  { induction t as [|c t IH]; [done|]. cbn [Py.count]. intros Hd' Hs'.
    assert (Py.char_in c quote_chars = false) as Hc.
    { cbn [Py.char_in quote_chars].
      destruct (Py.char_eqb c Py.dquote); [lia|].
      destruct (Py.char_eqb c Py.squote); [lia|]. done. }
    cbn [Py.lstrip_by Py.rstrip_by]. rewrite Hc. split; [done|].
    destruct (IH ltac:(lia) ltac:(lia)) as [_ ->]. by destruct t. }
  destruct (H s Hd Hs) as [-> Hr]. exact Hr.
Qed.

Lemma bracket_scan_unquoted rest genres cur qchar :
  Py.count Py.dquote rest = 0 → Py.count Py.squote rest = 0 →
  bracket_scan rest genres cur false qchar
  = genres ++ filter (λ g, g ≠ EmptyString) (Py.strip <$> Py.split_comma rest).
Proof.
  remember (Py.len rest) as n eqn:Hn. revert rest genres Hn.
  induction n as [n IH] using lt_wf_ind. intros rest genres -> Hd Hs.
  destruct rest as [|ch tl].
  { cbn [bracket_scan Py.split_comma fmap list_fmap].
    change (Py.strip EmptyString) with EmptyString.
    rewrite filter_cons_False by (intros H; by apply H).
    by rewrite filter_nil, (right_id_L [] (++)). }
  assert (is_quote ch = false) as Hch.
  { unfold is_quote. cbn [Py.count] in Hd, Hs.
    destruct (Py.char_eqb ch Py.dquote); [lia|].
    destruct (Py.char_eqb ch Py.squote); [lia|]. done. }
  rewrite bracket_scan_token by done. cbv zeta.
  rewrite split_comma_before_after.
  set (rest := String ch tl) in *.
  assert (add_token (before_comma rest) genres
          = genres ++ filter (λ g, g ≠ EmptyString)
                        [Py.strip (before_comma rest)]) as Htoken.
  { unfold add_token. rewrite strip_chars_no_quote.
    - destruct (Py.strip (before_comma rest)) eqn:Hpiece.
      + rewrite filter_cons_False by (intros H; by apply H).
        by rewrite filter_nil, (right_id_L [] (++)).
      + by rewrite filter_cons_True.
    - apply count_rstrip_by, count_lstrip_by. by apply count_before_comma.
    - apply count_rstrip_by, count_lstrip_by. by apply count_before_comma. }
  rewrite Htoken.
  destruct (after_comma rest) as [rest'|] eqn:Hafter.
  - rewrite (IH (Py.len rest')).
    + rewrite <- (assoc_L (++)). f_equal.
      change (Py.strip <$> before_comma rest :: Py.split_comma rest')
        with ([Py.strip (before_comma rest)]
              ++ (Py.strip <$> Py.split_comma rest')).
      by rewrite filter_app.
    + by apply after_comma_len.
    + done.
    + by eapply count_after_comma.
    + by eapply count_after_comma.
  - done.
Qed.

(** X21: a bracketed genre field without any quote character is split at
    its commas; every piece is trimmed, and the pieces that are not empty
    are the genres, in order. *)
Theorem extract_genres_unquoted_list inside :
  Py.count Py.dquote inside = 0 → Py.count Py.squote inside = 0 →
  extract_genres (bracketed inside)
  = filter (λ g, g ≠ EmptyString)
      (Py.strip <$> Py.split_comma (Py.strip inside)).
Proof.
  intros Hd Hs. destruct (extract_genres_bracketed inside) as [-> _].
  rewrite bracket_scan_unquoted; [done | |];
    by apply count_rstrip_by, count_lstrip_by.
Qed.

Lemma extract_genres_unquoted_list_witness :
  extract_genres (bracketed " Action,, Sci-Fi , ")
  = filter (λ g, g ≠ EmptyString)
      (Py.strip <$> Py.split_comma (Py.strip " Action,, Sci-Fi , ")).
Proof. apply extract_genres_unquoted_list; reflexivity. Defined.

End extractor_unquoted.

(** ** Aggregator: the resolved columns *)

Section columns_more.

Lemma last_pos_from_lookup start nm names j :
  last_pos_from start nm names = Some j →
  start ≤ j ∧ names !! (j - start) = Some nm.
Proof.
  revert start. induction names as [|n names IH]; intros start; [done|].
  cbn [last_pos_from].
  destruct (last_pos_from (S start) nm names) as [j'|] eqn:Hlast.
  - intros [= ->]. destruct (IH (S start) Hlast) as [Hle Hj].
    split; [lia|]. by replace (j - start) with (S (j - S start)) by lia.
  - destruct (decide (n = nm)) as [->|Hne].
    + rewrite bool_decide_eq_true_2 by done. intros [= ->].
      split; [done|]. by rewrite Nat.sub_diag.
    + by rewrite bool_decide_eq_false_2.
Qed.

Lemma column_of_lookup test header j :
  column_of test header = Some j →
  ∃ h, header !! j = Some h ∧ test (Py.strip h) = true.
Proof.
  unfold column_of, last_pos.
  destruct (List.find test (names_of header)) as [nm|] eqn:Hfind; [|done].
  cbn [mbind option_bind]. intros Hlast.
  apply last_pos_from_lookup in Hlast as [_ Hj].
  rewrite Nat.sub_0_r in Hj. unfold names_of in Hj.
  rewrite list_lookup_fmap in Hj.
  destruct (header !! j) as [h|]; [|done]. injection Hj as <-.
  exists h. split; [done|]. by apply find_some in Hfind as [_ Hfind].
Qed.

(** X13: the two columns that column resolution returns are positions of
    the header, the first of a name that contains genre, the second of a
    name that contains both schedule and time, whatever the case and the
    whitespace around the name. *)
Theorem resolve_columns_in_header header genres_col schedule_col :
  resolve_columns header = Ok (genres_col, schedule_col) →
  (∃ h, header !! genres_col = Some h
        ∧ is_genre_name (Py.strip h) = true)
  ∧ (∃ h, header !! schedule_col = Some h
          ∧ is_schedule_name (Py.strip h) = true).
Proof.
  unfold resolve_columns, genres_col_of, schedule_col_of.
  rewrite !next_idx_header_map.
  destruct (column_of is_genre_name header) as [gc|] eqn:Hg; [|done].
  destruct (column_of is_schedule_name header) as [sc|] eqn:Hs; [|done].
  intros [= <- <-]. split; by eapply column_of_lookup.
Qed.

Lemma resolve_columns_in_header_witness :
  (∃ h, ["Title"; " GENRES "; "Schedule (Time)"] !! 1 = Some h
        ∧ is_genre_name (Py.strip h) = true)
  ∧ (∃ h, ["Title"; " GENRES "; "Schedule (Time)"] !! 2 = Some h
          ∧ is_schedule_name (Py.strip h) = true).
Proof. apply resolve_columns_in_header. reflexivity. Defined.

End columns_more.

(** ** Aggregator: the whole table *)

Section counting_more.

Lemma count_genre_comm t1 t2 counts g1 g2 :
  count_genre t1 (count_genre t2 counts g2) g1
  = count_genre t2 (count_genre t1 counts g1) g2.
Proof.
  unfold count_genre.
  destruct (Py.truthy g1), (Py.truthy g2); cbn [negb]; try done.
  destruct (decide (g1 = g2)) as [<-|Hg].
  - rewrite !lookup_insert_eq, !insert_insert_eq.
    cbn [default from_option id]. f_equal.
    destruct (decide (t1 = t2)) as [<-|Ht]; [done|].
    rewrite !lookup_insert_ne by done. by apply insert_insert_ne.
  - rewrite !lookup_insert_ne by done. by apply insert_insert_ne.
Qed.

Lemma foldl_comm_perm {A B} (f : A → B → A) (l l' : list B) :
  (∀ a x y, f (f a x) y = f (f a y) x) →
  l ≡ₚ l' → ∀ a, foldl f a l = foldl f a l'.
Proof.
  intros Hf. induction 1 as [|x l l' _ IH|x y l|l l' l'' _ IH _ IH'];
    intros a; simpl.
  - done.
  - apply IH.
  - by rewrite Hf.
  - by rewrite IH.
Qed.

Lemma foldl_count_genre_filter time genres counts :
  foldl (count_genre time) counts genres
  = foldl (count_genre time) counts
      (filter (λ g, g ≠ EmptyString) genres).
Proof.
  revert counts. induction genres as [|genre genres IH]; intros counts;
    [done|].
  destruct (decide (genre = EmptyString)) as [->|Hne].
  - rewrite filter_cons_False by (intros H; by apply H). simpl. apply IH.
  - rewrite filter_cons_True by done. simpl. apply IH.
Qed.

(** A row counts its pairs, one after the other. *)
Lemma count_row_pairs genres_col schedule_col counts row :
  count_row genres_col schedule_col counts row
  = Ok (foldl (λ c pr, count_genre pr.2 c pr.1) counts
          (pairs_of_row genres_col schedule_col row)).
Proof.
  unfold pairs_of_row.
  destruct (decide (length row ≤ genres_col `max` schedule_col))
    as [Hshort|Hlong].
  - unfold count_row. rewrite bool_decide_eq_true_2 by done.
    unfold genres_of_row.
    destruct (row !! genres_col) eqn:Hg; [|done].
    destruct (row !! schedule_col) eqn:Hc; [|done].
    apply lookup_lt_Some in Hg, Hc. lia.
  - destruct (count_row_covered genres_col schedule_col counts row Hlong)
      as (raw_genres & cell & Hg & Hc & ->).
    unfold genres_of_row. rewrite Hg, Hc. cbn [default].
    destruct (Py.truthy (Py.strip cell)) eqn:Htime; cbn [negb].
    + apply truthy_true in Htime. rewrite bool_decide_eq_false_2 by done.
      rewrite foldl_fmap. cbn [fst snd].
      by rewrite (foldl_count_genre_filter (Py.strip cell)).
    + apply truthy_false in Htime. by rewrite bool_decide_eq_true_2.
Qed.

Lemma count_rows_pairs genres_col schedule_col rows counts :
  count_rows genres_col schedule_col counts rows
  = Ok (foldl (λ c pr, count_genre pr.2 c pr.1) counts
          (rows ≫= pairs_of_row genres_col schedule_col)).
Proof.
  revert counts. induction rows as [|row rows IH]; intros counts; [done|].
  cbn [count_rows]. rewrite count_row_pairs. cbn [mbind result_bind].
  rewrite IH, bind_cons, foldl_app. done.
Qed.

(** X14: the Frequency Table does not depend on the order of the data
    rows. *)
Theorem count_rows_permutation genres_col schedule_col counts rows rows' :
  rows ≡ₚ rows' →
  count_rows genres_col schedule_col counts rows
  = count_rows genres_col schedule_col counts rows'.
Proof.
  intros Hrows. rewrite !count_rows_pairs. f_equal.
  apply foldl_comm_perm.
  - intros c [g1 t1] [g2 t2]. apply count_genre_comm.
  - by rewrite Hrows.
Qed.

Lemma count_rows_permutation_witness :
  count_rows 0 1 ∅ [["Drama, Crime"; "8PM"]; ["Drama"; "9PM"]]
  = count_rows 0 1 ∅ [["Drama"; "9PM"]; ["Drama, Crime"; "8PM"]].
Proof. apply count_rows_permutation. apply perm_swap. Defined.

Lemma pairs_of_row_genre genres_col schedule_col row :
  Forall (λ pr, pr.1 ≠ EmptyString) (pairs_of_row genres_col schedule_col row).
Proof.
  unfold pairs_of_row. apply Forall_fmap. unfold genres_of_row.
  destruct (row !! genres_col); [|constructor].
  destruct (row !! schedule_col); [|constructor].
  destruct (bool_decide _); [constructor|].
  apply Forall_forall. intros g Hg. by apply list_elem_of_filter in Hg as [Hg _].
Qed.

Lemma count_of_foldl_pairs (pairs : list (string * string)) counts g t :
  Forall (λ pr, pr.1 ≠ EmptyString) pairs →
  count_of (foldl (λ c pr, count_genre pr.2 c pr.1) counts pairs) g t
  = count_of counts g t + length (filter (λ pr, pr = (g, t)) pairs).
Proof.
  intros Hpairs. revert counts.
  induction Hpairs as [|[g' t'] pairs Hpr _ IH]; intros counts.
  { simpl. lia. }
  cbn [foldl]. rewrite IH, count_of_count_genre. cbn [fst snd] in *.
  destruct (decide ((g', t') = (g, t))) as [[= -> ->]|Hne].
  - rewrite filter_cons_True by done. rewrite decide_True by done.
    simpl. lia.
  - rewrite filter_cons_False by done.
    rewrite decide_False by (intros (_ & -> & ->); done). lia.
Qed.

(** X15: counting any data rows from the empty table ends without an
    exception, and the count the table holds for a genre and a schedule
    value (zero without an entry) is the number of times the rows count
    that pair: once for every occurrence of the genre, not empty, in the
    genre list of a row that covers both columns and whose trimmed schedule
    value is that value, not empty. *)
Theorem count_rows_tally genres_col schedule_col rows :
  ∃ counts,
    count_rows genres_col schedule_col ∅ rows = Ok counts
    ∧ ∀ genre time,
        count_of counts genre time
        = tally genres_col schedule_col rows genre time.
Proof.
  eexists. split; [apply count_rows_pairs|].
  intros genre time. unfold tally. rewrite count_of_foldl_pairs.
  - unfold count_of. by rewrite lookup_empty.
  - apply Forall_bind, Forall_forall. intros row _.
    apply pairs_of_row_genre.
Qed.

End counting_more.

(** ** Resolver: the order of the items *)

Section resolver_more.

Lemma key_le_antisym a b : key_le a b → key_le b a → a = b.
Proof.
  destruct a as [s c], b as [s' c']. unfold key_le. cbn [fst snd].
  intros [H|[-> H]] [H'|[H1 H']]; try lia.
  f_equal. by apply (anti_symm String.le).
Qed.

(** X16: the item that [max] selects does not depend on the order in which
    the count mapping yields its items: on every rearrangement of the items
    the selection is the same. *)
Theorem py_max_permutation (items items' : list (string * nat)) :
  items ≡ₚ items' → py_max items = py_max items'.
Proof.
  intros Hperm. destruct items as [|x l], items' as [|y l'].
  - done.
  - by apply Permutation_nil_l in Hperm.
  - by apply Permutation_nil_r in Hperm.
  - cbn [py_max]. f_equal. apply key_le_antisym.
    + apply max_from_greatest. rewrite <- Hperm. apply max_from_in.
    + apply max_from_greatest. rewrite Hperm. apply max_from_in.
Qed.

Lemma py_max_permutation_witness :
  py_max [("8PM", 3); ("9PM", 1); ("7PM", 3)]
  = py_max [("7PM", 3); ("8PM", 3); ("9PM", 1)].
Proof.
  apply py_max_permutation.
  etrans; [apply perm_skip, perm_swap | apply perm_swap].
Defined.

End resolver_more.

(** ** [get_most_common_schedule_by_genre]: outcomes and result *)

Section get_most_common.

(** X17: the function ends in a mapping or in one of the two missing-column
    errors: no subscript goes out of range, and [max] is never given an
    empty mapping. *)
Theorem get_most_common_outcomes raw_lines :
  (∃ res, get_most_common_schedule_by_genre raw_lines = Ok res)
  ∨ get_most_common_schedule_by_genre raw_lines
    = Raise (ValueError no_genres_msg)
  ∨ get_most_common_schedule_by_genre raw_lines
    = Raise (ValueError no_schedule_msg).
Proof.
  unfold get_most_common_schedule_by_genre.
  destruct (iter_csv_rows raw_lines) as [|header rows]; [left; by eexists|].
  unfold resolve_columns.
  destruct (genres_col_of header) as [gc|]; [|right; by left].
  destruct (schedule_col_of header) as [sc|]; [|right; by right].
  cbn [mbind result_bind fst snd].
  destruct (count_rows_invariants gc sc rows ∅)
    as (counts & -> & Hpop & _).
  destruct (resolve_populated counts (Hpop populated_empty))
    as (res & Hres & _).
  left. by exists res.
Qed.

Lemma count_of_lookup counts genre time_counts time :
  counts !! genre = Some time_counts →
  count_of counts genre time = default 0 (time_counts !! time).
Proof. intros Hg. unfold count_of. by rewrite Hg. Qed.

(** X18: when the first row is a header with both columns, the result maps
    a genre to a schedule value exactly when the data rows count that pair
    at least once, no other schedule value is counted more often for the
    genre, and among the values counted as often none is a greater string:
    every genre seen gets its most common schedule value, a tie going to the
    greatest string. *)
Theorem get_most_common_result raw_lines header rows genres_col schedule_col :
  iter_csv_rows raw_lines = header :: rows →
  resolve_columns header = Ok (genres_col, schedule_col) →
  ∃ res,
    get_most_common_schedule_by_genre raw_lines = Ok res
    ∧ ∀ genre t,
        res !! genre = Some t
        ↔ 0 < tally genres_col schedule_col rows genre t
          ∧ ∀ t',
              tally genres_col schedule_col rows genre t'
              < tally genres_col schedule_col rows genre t
              ∨ (tally genres_col schedule_col rows genre t'
                 = tally genres_col schedule_col rows genre t
                 ∧ (t' ≤ t)%string).
Proof.
  intros Hrows Hcols. unfold get_most_common_schedule_by_genre.
  rewrite Hrows, Hcols. cbn [mbind result_bind fst snd].
  destruct (count_rows_invariants genres_col schedule_col rows ∅)
    as (counts & Hcounts & Hpop & _).
  specialize (Hpop populated_empty).
  assert (∀ genre time,
            count_of counts genre time
            = tally genres_col schedule_col rows genre time) as Htally.
  { intros genre time. rewrite count_rows_pairs in Hcounts.
    injection Hcounts as <-. unfold tally. rewrite count_of_foldl_pairs.
    - unfold count_of. by rewrite lookup_empty.
    - apply Forall_bind, Forall_forall. intros row _.
      apply pairs_of_row_genre. }
  rewrite Hcounts.
  destruct (resolve_populated counts Hpop) as (res & Hres & Hlookup).
  exists res. split; [done|]. intros genre t. rewrite Hlookup.
  setoid_rewrite <- Htally. split.
  - intros (time_counts & Hg & Hbest).
    destruct (best_time_greatest _ _ Hbest) as (c & Ht & Hmax).
    destruct (Hpop genre time_counts Hg) as [_ Hone].
    rewrite !(count_of_lookup counts genre time_counts) by done.
    rewrite Ht. cbn [default from_option id]. split.
    + by apply (Hone t c).
    + intros t'. rewrite (count_of_lookup counts genre time_counts) by done.
      destruct (time_counts !! t') as [c'|] eqn:Ht'.
      * cbn [default from_option id]. by apply (Hmax t' c').
      * cbn [default from_option id]. left. by apply (Hone t c).
  - intros [Hpos Hmax].
    destruct (counts !! genre) as [time_counts|] eqn:Hg.
    2:{ unfold count_of in Hpos. rewrite Hg in Hpos. simpl in Hpos. lia. }
    exists time_counts. split; [done|].
    destruct (Hpop genre time_counts Hg) as [Hne Hone].
    destruct (best_time_total time_counts Hne) as [t0 Hbest].
    destruct (best_time_greatest _ _ Hbest) as (c0 & Ht0 & Hmax0).
    rewrite (count_of_lookup counts genre time_counts) in Hpos by done.
    destruct (time_counts !! t) as [c|] eqn:Ht; [|simpl in Hpos; lia].
    specialize (Hmax t0).
    rewrite !(count_of_lookup counts genre time_counts) in Hmax by done.
    rewrite Ht, Ht0 in Hmax. cbn [default from_option id] in Hmax.
    specialize (Hmax0 t c Ht).
    assert (t = t0) as ->; [|done].
    destruct Hmax as [?|[? Hle]], Hmax0 as [?|[? Hle0]]; try lia.
    by apply (anti_symm String.le).
Qed.

Lemma get_most_common_result_witness :
  ∃ res,
    get_most_common_schedule_by_genre
      [ ln "Genres,Schedule (time)";
        ln "Drama,8PM"; ln "Drama,9PM"; ln "Drama,8PM" ]
    = Ok res
    ∧ ∀ genre t,
        res !! genre = Some t
        ↔ 0 < tally 0 1 [["Drama"; "8PM"]; ["Drama"; "9PM"]; ["Drama"; "8PM"]]
                genre t
          ∧ ∀ t',
              tally 0 1 [["Drama"; "8PM"]; ["Drama"; "9PM"]; ["Drama"; "8PM"]]
                genre t'
              < tally 0 1
                  [["Drama"; "8PM"]; ["Drama"; "9PM"]; ["Drama"; "8PM"]]
                  genre t
              ∨ (tally 0 1
                   [["Drama"; "8PM"]; ["Drama"; "9PM"]; ["Drama"; "8PM"]]
                   genre t'
                 = tally 0 1
                     [["Drama"; "8PM"]; ["Drama"; "9PM"]; ["Drama"; "8PM"]]
                     genre t
                 ∧ (t' ≤ t)%string).
Proof.
  apply (get_most_common_result _ ["Genres"; "Schedule (time)"]);
    reflexivity.
Defined.

End get_most_common.

(** ** [_main]: what is printed and returned *)

Section main.

(** The warning lines before the report: none when a path is given. *)
Lemma main_unfold fs argv :
  _main fs argv
  = let path := default fallback_path (argv !! 1) in
    let warned := fallback_warning argv in
    match fs path with
    | None => (warned ++ [FileNotFound path], 1%Z)
    | Some raw_lines =>
        match get_most_common_schedule_by_genre raw_lines with
        | Ok res =>
            if bool_decide (res = ∅) then (warned ++ [NoValidData], 1%Z)
            else
              (warned ++ ((λ genre, GenreLine genre (res !!! genre))
                            <$> merge_sort String.le (elements (dom res))),
               0%Z)
        | Raise (ValueError msg) => (warned ++ [ValueErrorLine msg], 1%Z)
        | Raise e => (warned ++ [UnexpectedErrorLine e], 1%Z)
        end
    end.
Proof. unfold _main, fallback_warning. by destruct (argv !! 1). Qed.

(** X19: when the file holds a result that is not empty, [_main] returns 0
    and prints, after the fallback warning if no path was given, one line
    per genre of the result with its schedule value, the genres in
    ascending order without repetition. *)
Theorem main_prints_sorted fs argv raw_lines res :
  fs (default fallback_path (argv !! 1)) = Some raw_lines →
  get_most_common_schedule_by_genre raw_lines = Ok res →
  res ≠ ∅ →
  ∃ genres,
    _main fs argv
    = (fallback_warning argv
       ++ ((λ genre, GenreLine genre (res !!! genre)) <$> genres), 0%Z)
    ∧ StronglySorted String.le genres
    ∧ NoDup genres
    ∧ ∀ genre, genre ∈ genres ↔ is_Some (res !! genre).
Proof.
  intros Hfile Hres Hne.
  exists (merge_sort String.le (elements (dom res))).
  split; [|split; [|split]].
  - rewrite main_unfold. cbv zeta. rewrite Hfile, Hres.
    by rewrite bool_decide_eq_false_2.
  - apply StronglySorted_merge_sort; apply _.
  - rewrite merge_sort_Permutation. apply NoDup_elements.
  - intros genre. rewrite merge_sort_Permutation, elem_of_elements.
    apply elem_of_dom.
Qed.

Lemma main_prints_sorted_witness :
  ∃ genres,
    _main (λ _, Some [ ln "Genres,Schedule (time)";
                       ln "Drama,8PM"; ln "Crime,9PM" ]) ["prog"; "shows.csv"]
    = (fallback_warning ["prog"; "shows.csv"]
       ++ ((λ genre,
              GenreLine genre
                (({[ "Drama" := "8PM"; "Crime" := "9PM" ]}
                    : gmap string string) !!! genre)) <$> genres), 0%Z)
    ∧ StronglySorted String.le genres
    ∧ NoDup genres
    ∧ ∀ genre,
        genre ∈ genres
        ↔ is_Some (({[ "Drama" := "8PM"; "Crime" := "9PM" ]}
                      : gmap string string) !! genre).
Proof.
  apply (main_prints_sorted _ _
           [ ln "Genres,Schedule (time)"; ln "Drama,8PM"; ln "Crime,9PM" ]).
  - reflexivity.
  - vm_compute. reflexivity.
  - intros Hempty. apply (f_equal (lookup "Drama")) in Hempty.
    vm_compute in Hempty. discriminate Hempty.
Defined.

(** X20: [_main] returns 0 or 1, and 0 exactly when the file at the path
    (the fallback path without an argument) exists and gives a result that
    is not empty; it never prints the line of an unexpected error. *)
Theorem main_exit_code fs argv :
  ((_main fs argv).2 = 0%Z ∨ (_main fs argv).2 = 1%Z)
  ∧ ((_main fs argv).2 = 0%Z
     ↔ ∃ raw_lines res,
         fs (default fallback_path (argv !! 1)) = Some raw_lines
         ∧ get_most_common_schedule_by_genre raw_lines = Ok res
         ∧ res ≠ ∅)
  ∧ ∀ e, UnexpectedErrorLine e ∉ (_main fs argv).1.
Proof.
  rewrite main_unfold. cbv zeta.
  set (path := default fallback_path (argv !! 1)).
  assert (∀ e, UnexpectedErrorLine e ∉ fallback_warning argv) as Hwarned.
  { intros e. unfold fallback_warning.
    destruct (argv !! 1); [apply not_elem_of_nil|].
    intros H. repeat (apply elem_of_cons in H as [H|H]; [done|]).
    by apply elem_of_nil in H. }
  destruct (fs path) as [raw_lines|] eqn:Hfile.
  2:{ split; [by right|]. split.
      - split; [done | by intros (? & ? & ? & _)].
      - intros e H. apply elem_of_app in H as [H|H]; [by apply Hwarned in H|].
        apply list_elem_of_singleton in H. done. }
  assert ((∃ res, get_most_common_schedule_by_genre raw_lines = Ok res)
          ∨ ∃ msg, get_most_common_schedule_by_genre raw_lines
                   = Raise (ValueError msg)) as [[res Hres]|[msg Hmsg]].
  { unfold get_most_common_schedule_by_genre.
    destruct (iter_csv_rows raw_lines) as [|header rows]; [left; by eexists|].
    unfold resolve_columns.
    destruct (genres_col_of header) as [gc|]; [|right; by eexists].
    destruct (schedule_col_of header) as [sc|]; [|right; by eexists].
    cbn [mbind result_bind fst snd].
    destruct (count_rows_invariants gc sc rows ∅)
      as (counts & -> & Hpop & _).
    destruct (resolve_populated counts (Hpop populated_empty))
      as (res & Hres & _).
    left. by exists res. }
  - rewrite Hres. destruct (decide (res = ∅)) as [Hempty|Hne].
    + rewrite bool_decide_eq_true_2 by done. split; [by right|]. split.
      * split; [done|]. intros (raw_lines' & res' & [= <-] & Hres' & Hne).
        congruence.
      * intros e H. apply elem_of_app in H as [H|H]; [by apply Hwarned in H|].
        apply list_elem_of_singleton in H. done.
    + rewrite bool_decide_eq_false_2 by done. split; [by left|]. split.
      * split; [|done]. intros _. by exists raw_lines, res.
      * intros e H. apply elem_of_app in H as [H|H]; [by apply Hwarned in H|].
        apply list_elem_of_fmap in H as (genre & H & _). done.
  - rewrite Hmsg. split; [by right|]. split.
    + split; [done|]. intros (raw_lines' & res' & [= <-] & Hres' & _).
      congruence.
    + intros e H. apply elem_of_app in H as [H|H]; [by apply Hwarned in H|].
      apply list_elem_of_singleton in H. done.
Qed.

End main.

(** ** Genre List Extractor: a quoted token that is never closed *)

Section extractor_unclosed.












End extractor_unclosed.
